(** * cpp_sgr: SGR escape sequences and the auto-resetting stream wrapper

    A shallow embedding of the header [sgr.hpp] of cpp_sgr in its revisions:
    - the [sgr] / [color] token classes and the [sgr_ostream_wrapper]
      session (the revision with [invalid_color_component]);
    - the older [sgr_ostream] session, which derives from [std::ostream];
    - the [SGR] class whose [operator+] chains two escape sequences;
    - the oldest [SGR] / [FGColor] / [BGColor] classes of [include/sgr.hpp].

    Strings are [String.string]; the C++ [int] is embedded in [Z]; objects
    live in a store indexed by address, stream buffers in a second store, so
    that two streams that share one [rdbuf()] really write to one buffer. *)

From Stdlib Require Import ZArith String Ascii List Lia DecimalString DecimalZ.
From stdpp Require Import base option gmap.

Open Scope Z_scope.
Open Scope string_scope.

(** The escape character, as a one-character string. *)
Definition ESC : string := String "027"%char "".

(** ** [std::to_string(int)] *)

(** [std::to_string] on an [int] prints the decimal digits, with a leading
    minus sign for a negative number and ["0"] for zero. *)
Definition to_string (n : Z) : string :=
  NilEmpty.string_of_int (Z.to_int n).

(** Reading a decimal numeral back; used to speak of the number a payload
    denotes. *)
Definition stoi (s : string) : option Z :=
  option_map Z.of_int (NilEmpty.int_of_string s).

(** ** class [sgr] *)

Module Sgr.

(** [enum SGRCode]. *)
Inductive SGRCode :=
| RESET | BOLD | FAINT | ITALIC | UNDERLINE | BLINK_SLOW | BLINK_FAST
| REVERSE | CONCEAL | STRIKE | FRAME | ENCIRCLE | OVERLINE.

(** The enumerator values. *)
Definition SGRCode_value (code : SGRCode) : Z :=
  match code with
  | RESET => 0 | BOLD => 1 | FAINT => 2 | ITALIC => 3 | UNDERLINE => 4
  | BLINK_SLOW => 5 | BLINK_FAST => 6 | REVERSE => 7 | CONCEAL => 8
  | STRIKE => 9 | FRAME => 51 | ENCIRCLE => 52 | OVERLINE => 53
  end.

(** The class has the single data member [str]. *)
Record sgr := mk_sgr { str : string }.

(** [static const std::string escape = "\033["], [terminator = "m"]. *)
Definition escape : string := String "027"%char "[".
Definition terminator : string := "m".

(** [sgr(const SGRCode code) : sgr(std::to_string(code))]. *)
Definition sgr_of_code (code : SGRCode) : sgr :=
  mk_sgr (to_string (SGRCode_value code)).

(** [toString() const { return escape + str + terminator; }]. *)
Definition toString (c : sgr) : string :=
  (escape ++ str c) ++ terminator.

(** [operator+(left, right) { return sgr(left.str + ";" + right.str); }]. *)
Definition operator_plus (left right : sgr) : sgr :=
  mk_sgr ((str left ++ ";") ++ str right).

(** [operator,(left, right) { return left + right; }]. *)
Definition operator_comma (left right : sgr) : sgr :=
  operator_plus left right.

(** The named constants. *)
Definition reset : sgr := sgr_of_code RESET.
Definition underline : sgr := sgr_of_code UNDERLINE.
Definition bold : sgr := sgr_of_code BOLD.
Definition reverse : sgr := sgr_of_code REVERSE.
Definition faint : sgr := sgr_of_code FAINT.
Definition italic : sgr := sgr_of_code ITALIC.
Definition blink_slow : sgr := sgr_of_code BLINK_SLOW.
Definition blink_fast : sgr := sgr_of_code BLINK_FAST.
Definition conceal : sgr := sgr_of_code CONCEAL.
Definition strike : sgr := sgr_of_code STRIKE.
Definition frame : sgr := sgr_of_code FRAME.
Definition encircle : sgr := sgr_of_code ENCIRCLE.
Definition overline : sgr := sgr_of_code OVERLINE.

End Sgr.

(** ** class [color] *)

Module Color.
Import Sgr.

(** [enum ANSIColor]: [BLACK=30] and [BRIGHT_BLACK=90], the others count
    up from these. *)
Inductive ANSIColor :=
| BLACK | RED | GREEN | YELLOW | BLUE | MAGENTA | CYAN | WHITE
| BRIGHT_BLACK | BRIGHT_RED | BRIGHT_GREEN | BRIGHT_YELLOW
| BRIGHT_BLUE | BRIGHT_MAGENTA | BRIGHT_CYAN | BRIGHT_WHITE.

Definition ANSIColor_value (code : ANSIColor) : Z :=
  match code with
  | BLACK => 30 | RED => 31 | GREEN => 32 | YELLOW => 33
  | BLUE => 34 | MAGENTA => 35 | CYAN => 36 | WHITE => 37
  | BRIGHT_BLACK => 90 | BRIGHT_RED => 91 | BRIGHT_GREEN => 92
  | BRIGHT_YELLOW => 93 | BRIGHT_BLUE => 94 | BRIGHT_MAGENTA => 95
  | BRIGHT_CYAN => 96 | BRIGHT_WHITE => 97
  end.

Definition is_bright (code : ANSIColor) : bool :=
  match code with
  | BLACK | RED | GREEN | YELLOW | BLUE | MAGENTA | CYAN | WHITE => false
  | _ => true
  end.

(** [struct invalid_color_component : std::exception]. *)
Inductive exception := invalid_color_component.

(** [verifyColorComponent(c) { return c <= 255 && c >= 0; }]. *)
Definition verifyColorComponent (c : Z) : bool :=
  ((c <=? 255) && (c >=? 0))%Z.

(** [color(const ANSIColor code, bool foreground)
      : sgr(std::to_string(foreground ? code : (code + 10)))]. *)
Definition color_ansi (code : ANSIColor) (foreground : bool) : sgr :=
  mk_sgr (to_string (if foreground then ANSIColor_value code
                     else ANSIColor_value code + 10)).

(** [color(r, g, b, foreground)]: the base [sgr] is initialised from the
    joined string, then the body throws when a component is out of
    range.  A constructor that throws yields no object: the result is the
    exception alone. *)
Definition color_rgb (r g b : Z) (foreground : bool) : exception + sgr :=
  let base :=
    mk_sgr ((((((if foreground then "38;2;" else "48;2;") ++ to_string r)
               ++ ";") ++ to_string g) ++ ";") ++ to_string b) in
  if negb (verifyColorComponent r && verifyColorComponent g
           && verifyColorComponent b)
  then inl invalid_color_component
  else inr base.

(** The four static factories. *)
Definition fg (code : ANSIColor) : sgr := color_ansi code true.
Definition bg (code : ANSIColor) : sgr := color_ansi code false.
Definition fg_rgb (r g b : Z) : exception + sgr := color_rgb r g b true.
Definition bg_rgb (r g b : Z) : exception + sgr := color_rgb r g b false.

(** Three of the shorthands, those the tests use. *)
Definition red_fg : sgr := fg RED.
Definition green_fg : sgr := fg GREEN.
Definition white_bg : sgr := bg WHITE.

End Color.

(** ** The store: stream buffers and objects

    A [std::ostream] built as [std::ostream(other.rdbuf())] shares the
    buffer of [other]: both write to the same sink.  Buffers are therefore
    kept in a store of their own, and a stream object holds the address of
    its buffer.  Objects of class type live in a second store; a
    constructor receives the address [this] at which it builds the object,
    as it does in C++. *)

Abbreviation addr := nat (only parsing).
Abbreviation streambuf := nat (only parsing).

Record world (O : Type) := mk_world {
  bufs : gmap streambuf string;
  objs : gmap addr O
}.
Arguments mk_world {O} _ _.
Arguments bufs {O} _.
Arguments objs {O} _.

(** Commands read and update the world and may be undefined ([None]): the
    use of an object that is not alive, or of a buffer that does not
    exist. *)
Definition M (O A : Type) : Type := world O -> option (A * world O).

Definition ret {O A} (a : A) : M O A := fun w => Some (a, w).

Definition bind {O A B} (c : M O A) (k : A -> M O B) : M O B :=
  fun w => match c w with
           | Some (a, w') => k a w'
           | None => None
           end.

Declare Scope cmd_scope.
Delimit Scope cmd_scope with cmd.
Notation "x <- c ;; k" := (bind c (fun x => k))
  (at level 100, c at next level, right associativity) : cmd_scope.
Notation "c ;; k" := (bind c (fun _ => k))
  (at level 100, right associativity) : cmd_scope.
Open Scope cmd_scope.

(** Reading the object at an address. *)
Definition load {O} (a : addr) : M O O :=
  fun w => match objs w !! a with
           | Some o => Some (o, w)
           | None => None
           end.

(** The start of an object's lifetime: the storage at [a] must be free. *)
Definition construct {O} (a : addr) (o : O) : M O unit :=
  fun w => match objs w !! a with
           | Some _ => None
           | None => Some (tt, mk_world (bufs w) (<[a := o]> (objs w)))
           end.

(** Assignment to the members of a live object. *)
Definition assign {O} (a : addr) (o : O) : M O unit :=
  fun w => match objs w !! a with
           | Some _ => Some (tt, mk_world (bufs w) (<[a := o]> (objs w)))
           | None => None
           end.

(** The end of an object's lifetime. *)
Definition free {O} (a : addr) : M O unit :=
  fun w => match objs w !! a with
           | Some _ => Some (tt, mk_world (bufs w) (delete a (objs w)))
           | None => None
           end.

(** [sputn]: the characters are appended to the buffer. *)
Definition sputn {O} (b : streambuf) (s : string) : M O unit :=
  fun w => match bufs w !! b with
           | Some old => Some (tt, mk_world (<[b := old ++ s]> (bufs w)) (objs w))
           | None => None
           end.

(** What [std::ostream::operator<<] writes for a value of type [T], for a
    stream in its default formatting state. *)
Class Insertable (T : Type) := formatted : T -> string.

(** [const char *], [const char [N]] and [std::string]: the text itself. *)
#[export] Instance Insertable_string : Insertable string := fun s => s.
(** [char]. *)
#[export] Instance Insertable_char : Insertable ascii := fun c => String c "".
(** [int]. *)
#[export] Instance Insertable_int : Insertable Z := to_string.

(** ** class [sgr_ostream_wrapper] *)

Module Wrapper.
Import Sgr.

(** The data members: [std::ostream stream], known by the buffer it
    writes to, and [bool shouldReset]. *)
Record sgr_ostream_wrapper := mk_wrapper {
  stream : streambuf;
  shouldReset : bool
}.

Abbreviation cmd := (M sgr_ostream_wrapper).

(** [sgr_ostream_wrapper(std::ostream & stream)
      : stream(stream.rdbuf()), shouldReset(true)];
    [out] is [stream.rdbuf()]. *)
Definition ctor (this : addr) (out : streambuf) : cmd unit :=
  construct this (mk_wrapper out true).

(** [sgr_ostream_wrapper(sgr_ostream_wrapper && other)
      : stream(other.stream.rdbuf()), shouldReset(other.shouldReset)
    { other.shouldReset = false; }]. *)
Definition ctor_move (this other : addr) : cmd unit :=
  o <- load other ;;
  construct this (mk_wrapper (stream o) (shouldReset o)) ;;
  o' <- load other ;;
  assign other (mk_wrapper (stream o') false).

(** [template<class T> operator<<(const T & t) { stream << t; return *this; }];
    the result is the address of [*this]. *)
Definition insert {T} `{Insertable T} (this : addr) (t : T) : cmd addr :=
  o <- load this ;;
  sputn (stream o) (formatted t) ;;
  ret this.

(** The specialization for [sgr]:
    [{ stream << c.toString(); return *this; }]. *)
Definition insert_sgr (this : addr) (c : sgr) : cmd addr :=
  o <- load this ;;
  sputn (stream o) (formatted (toString c)) ;;
  ret this.

(** [kill() { if(shouldReset) { shouldReset = false;
                               *this << reset.toString(); } }]. *)
Definition kill (this : addr) : cmd unit :=
  o <- load this ;;
  if shouldReset o then
    assign this (mk_wrapper (stream o) false) ;;
    _ <- insert this (toString reset) ;;
    ret tt
  else ret tt.

(** [~sgr_ostream_wrapper() { this->kill(); }], after which the object is
    gone.  Destroying the member [stream] leaves its buffer alone. *)
Definition dtor (this : addr) : cmd unit :=
  kill this ;;
  free this.

(** The free function
    [sgr_ostream_wrapper operator<<(std::ostream & out, const sgr & c)
     { sgr_ostream_wrapper wrapper(out); wrapper << c;
       return std::move(wrapper); }].
    [wrapper] is the address of the local variable and [result] the
    address of the returned object; [std::move] forces the move
    constructor, and the local is destroyed when the function returns. *)
Definition operator_shl (result wrapper : addr) (out : streambuf) (c : sgr)
  : cmd addr :=
  ctor wrapper out ;;
  _ <- insert_sgr wrapper c ;;
  ctor_move result wrapper ;;
  dtor wrapper ;;
  ret result.

(** The full-expression statement [out << c << t;]: the temporary returned
    by the first insertion is destroyed at the semicolon. *)
Definition stmt_sgr_then {T} `{Insertable T}
    (result wrapper : addr) (out : streambuf) (c : sgr) (t : T) : cmd unit :=
  tmp <- operator_shl result wrapper out c ;;
  r <- insert tmp t ;;
  dtor tmp.

(** The statement [out << c;]. *)
Definition stmt_sgr (result wrapper : addr) (out : streambuf) (c : sgr)
  : cmd unit :=
  tmp <- operator_shl result wrapper out c ;;
  dtor tmp.

(** The statement [out << a << b;] with two tokens. *)
Definition stmt_sgr_sgr (result wrapper : addr) (out : streambuf) (a b : sgr)
  : cmd unit :=
  tmp <- operator_shl result wrapper out a ;;
  r <- insert_sgr tmp b ;;
  dtor tmp.

(** [kill] called [n] times in a row. *)
Fixpoint kill_times (n : nat) (this : addr) : cmd unit :=
  match n with
  | O => ret tt
  | S n' => kill this ;; kill_times n' this
  end.

(** The right operands of a longer chain [out << c << x1 << ... << xn;]:
    text goes through the generic inserter, a token through the
    specialization. *)
Inductive operand :=
| Text (t : string)
| Token (c : sgr).

Definition insert_operand (this : addr) (x : operand) : cmd addr :=
  match x with
  | Text t => insert this t
  | Token c => insert_sgr this c
  end.

(** Each inserter returns the wrapper the next one is applied to. *)
Fixpoint insert_chain (this : addr) (xs : list operand) : cmd addr :=
  match xs with
  | nil => ret this
  | x :: xs' => r <- insert_operand this x ;; insert_chain r xs'
  end.

Definition stmt_chain (result wrapper : addr) (out : streambuf) (c : sgr)
    (xs : list operand) : cmd unit :=
  tmp <- operator_shl result wrapper out c ;;
  r <- insert_chain tmp xs ;;
  dtor tmp.

(** The characters an operand stands for. *)
Definition rendered (x : operand) : string :=
  match x with
  | Text t => t
  | Token c => toString c
  end.

Fixpoint rendered_all (xs : list operand) : string :=
  match xs with
  | nil => ""
  | x :: xs' => rendered x ++ rendered_all xs'
  end.

(** The generic inserter instantiated at [T = color], as in
    [out << bold << color::fg(color::RED)]: template deduction takes the
    static type [color], not [sgr], so the specialization is not chosen.
    Its body [stream << t;] then calls the free
    [operator<<(std::ostream &, const sgr &)] on the member [stream]; the
    wrapper that call returns is a temporary of the statement [stream << t;]
    and dies at its semicolon.  [result] and [wrapper] are the addresses of
    the inner call's returned object and local. *)
Definition insert_color (this result wrapper : addr) (t : sgr) : cmd addr :=
  o <- load this ;;
  tmp <- operator_shl result wrapper (stream o) t ;;
  dtor tmp ;;
  ret this.

(** Operands by their static type: text, a token of type [sgr] (the named
    constants, the result of [operator+]), or an object of type [color], as
    [color::fg] and [color::bg] return it. *)
Inductive typed_operand :=
| OfText (t : string)
| OfSgr (c : sgr)
| OfColor (c : sgr).

(** Text and [sgr] operands as typed operands. *)
Definition of_operand (x : operand) : typed_operand :=
  match x with
  | Text t => OfText t
  | Token c => OfSgr c
  end.

(** Overload resolution on the static type of the operand; [inner_result]
    and [inner_wrapper] are the storage of the inner call that a [color]
    operand causes. *)
Definition insert_typed (this inner_result inner_wrapper : addr)
    (x : typed_operand) : cmd addr :=
  match x with
  | OfText t => insert this t
  | OfSgr c => insert_sgr this c
  | OfColor c => insert_color this inner_result inner_wrapper c
  end.

Fixpoint insert_typed_chain (this inner_result inner_wrapper : addr)
    (xs : list typed_operand) : cmd addr :=
  match xs with
  | nil => ret this
  | x :: xs' =>
      r <- insert_typed this inner_result inner_wrapper x ;;
      insert_typed_chain r inner_result inner_wrapper xs'
  end.

(** The statement [out << c << x1 << ... << xn;] with operands of any of
    the three static types. *)
Definition stmt_typed_chain (result wrapper inner_result inner_wrapper : addr)
    (out : streambuf) (c : sgr) (xs : list typed_operand) : cmd unit :=
  tmp <- operator_shl result wrapper out c ;;
  r <- insert_typed_chain tmp inner_result inner_wrapper xs ;;
  dtor tmp.

(** What an operand puts on the sink: a [color] operand is followed by the
    reset of its inner session. *)
Definition rendered_typed (x : typed_operand) : string :=
  match x with
  | OfText t => t
  | OfSgr c => toString c
  | OfColor c => toString c ++ toString reset
  end.

Fixpoint rendered_typed_all (xs : list typed_operand) : string :=
  match xs with
  | nil => ""
  | x :: xs' => rendered_typed x ++ rendered_typed_all xs'
  end.

End Wrapper.

(** ** class [sgr_ostream] (the older session) *)

Module Ostream.
Import Sgr.

(** [class sgr_ostream : public std::ostream] with the member [dead];
    the base sub-object is known by its buffer. *)
Record sgr_ostream := mk_ostream {
  rdbuf : streambuf;
  dead : bool
}.

Abbreviation cmd := (M sgr_ostream).

(** [*this << s] for a [std::string] [s]: the inserter of the base class. *)
Definition insert {T} `{Insertable T} (this : addr) (t : T) : cmd addr :=
  o <- load this ;;
  sputn (rdbuf o) (formatted t) ;;
  ret this.

(** [sgr_ostream(std::ostream & stream, const sgr & sgr)
      : std::ostream(stream.rdbuf()) { *this << sgr.toString(); }];
    [out] is [stream.rdbuf()], and [dead] has its default initializer
    [false]. *)
Definition ctor (this : addr) (out : streambuf) (c : sgr) : cmd unit :=
  construct this (mk_ostream out false) ;;
  _ <- insert this (toString c) ;;
  ret tt.

(** [kill() { if(!dead) { dead = true; *this << reset.toString(); } }]. *)
Definition kill (this : addr) : cmd unit :=
  o <- load this ;;
  if negb (dead o) then
    assign this (mk_ostream (rdbuf o) true) ;;
    _ <- insert this (toString reset) ;;
    ret tt
  else ret tt.

(** [~sgr_ostream() { this->kill(); }]. *)
Definition dtor (this : addr) : cmd unit :=
  kill this ;;
  free this.

(** The member [sgr_ostream operator<<(const sgr & c)
     { this->kill(); return sgr_ostream( *this, c); }];
    the returned object is built in place at [result]. *)
Definition insert_sgr (result this : addr) (c : sgr) : cmd addr :=
  kill this ;;
  o <- load this ;;
  ctor result (rdbuf o) c ;;
  ret result.

(** The free function [sgr_ostream operator<<(std::ostream & out,
    const sgr & c) { return sgr_ostream(out, c); }]. *)
Definition operator_shl (result : addr) (out : streambuf) (c : sgr)
  : cmd addr :=
  ctor result out c ;;
  ret result.

(** The statement [out << a << b;]: two temporaries, destroyed at the
    semicolon in the reverse order of their construction. *)
Definition stmt_sgr_sgr (t1 t2 : addr) (out : streambuf) (a b : sgr)
  : cmd unit :=
  x <- operator_shl t1 out a ;;
  y <- insert_sgr t2 x b ;;
  dtor y ;;
  dtor x.

Fixpoint kill_times (n : nat) (this : addr) : cmd unit :=
  match n with
  | O => ret tt
  | S n' => kill this ;; kill_times n' this
  end.

(** The copy constructor
    [sgr_ostream(const sgr_ostream & stream) : std::ostream(stream.rdbuf()) { }];
    [dead] is not copied and takes its default initializer [false]. *)
Definition ctor_copy (this other : addr) : cmd unit :=
  o <- load other ;;
  construct this (mk_ostream (rdbuf o) false).

(** The rest of a chain of tokens [... << c1 << ... << cn]: every member
    inserter builds a temporary at the address given with its token; the
    temporaries die in the reverse order of their construction. *)
Fixpoint chain_from (this : addr) (xs : list (addr * sgr)) : cmd unit :=
  match xs with
  | nil => ret tt
  | (r, c) :: xs' =>
      y <- insert_sgr r this c ;;
      chain_from y xs' ;;
      dtor y
  end.

(** What such a chain asks for, with the reset that precedes each token. *)
Fixpoint rendered_sgrs (xs : list (addr * sgr)) : string :=
  match xs with
  | nil => ""
  | (_, c) :: xs' => toString reset ++ toString c ++ rendered_sgrs xs'
  end.

(** The statement [out << a << c1 << ... << cn;]. *)
Definition stmt_sgrs (t1 : addr) (out : streambuf) (a : sgr)
    (xs : list (addr * sgr)) : cmd unit :=
  x <- operator_shl t1 out a ;;
  chain_from x xs ;;
  dtor x.

(** Text operands go through the inserters of [std::ostream]; they write
    to the buffer of the stream they are applied to. *)
Fixpoint insert_texts (this : addr) (ts : list string) : cmd addr :=
  match ts with
  | nil => ret this
  | t :: ts' => r <- insert this t ;; insert_texts r ts'
  end.

(** The statement [out << c << t1 << ... << tn;] with text operands only. *)
Definition stmt_sgr_texts (t1 : addr) (out : streambuf) (c : sgr)
    (ts : list string) : cmd unit :=
  x <- operator_shl t1 out c ;;
  _ <- insert_texts x ts ;;
  dtor x.

End Ostream.

(** ** Client programs over one buffer

    Straight-line client code that hands a session from object to object:
    move construction, insertion of text or of a token through any live
    wrapper, and the end of a wrapper's lifetime. *)

Module Chain.
Import Sgr Wrapper.

Inductive op :=
| Move (dst src : addr)          (* sgr_ostream_wrapper dst(std::move(src)); *)
| Put (a : addr) (t : string)    (* a << t; *)
| PutSgr (a : addr) (c : sgr)    (* a << c; *)
| Destroy (a : addr).            (* the lifetime of a ends *)

Definition step (i : op) : cmd unit :=
  match i with
  | Move dst src => ctor_move dst src
  | Put a t => _ <- insert a t ;; ret tt
  | PutSgr a c => _ <- insert_sgr a c ;; ret tt
  | Destroy a => dtor a
  end.

Fixpoint exec (p : list op) : cmd unit :=
  match p with
  | nil => ret tt
  | i :: p' => step i ;; exec p'
  end.

(** What the client itself asks to be written. *)
Definition written (i : op) : string :=
  match i with
  | Put _ t => t
  | PutSgr _ c => toString c
  | Move _ _ | Destroy _ => ""
  end.

Fixpoint output (p : list op) : string :=
  match p with
  | nil => ""
  | i :: p' => written i ++ output p'
  end.

(** An operation is in scope when the wrappers it uses are alive and the
    wrapper it builds is placed in free storage. *)
Definition in_scope (live : gset addr) (i : op) : bool :=
  match i with
  | Move dst src => bool_decide (src ∈ live) && bool_decide (dst ∉ live)
  | Put a _ | PutSgr a _ | Destroy a => bool_decide (a ∈ live)
  end.

(** The wrappers alive after an operation. *)
Definition live_after (live : gset addr) (i : op) : gset addr :=
  match i with
  | Move dst _ => {[dst]} ∪ live
  | Put _ _ | PutSgr _ _ => live
  | Destroy a => live ∖ {[a]}
  end.

(** A program is well scoped when every operation is in scope and no
    wrapper is left alive at the end. *)
Fixpoint well_scoped (live : gset addr) (p : list op) : bool :=
  match p with
  | nil => bool_decide (live = ∅)
  | i :: p' => in_scope live i && well_scoped (live_after live i) p'
  end.

(** Every live wrapper writes to buffer [b]. *)
Definition all_on (w : world sgr_ostream_wrapper) (b : streambuf) : Prop :=
  forall a o, objs w !! a = Some o -> stream o = b.

(** No live wrapper has [shouldReset] set. *)
Definition unarmed (w : world sgr_ostream_wrapper) : Prop :=
  forall a o, objs w !! a = Some o -> shouldReset o = false.

(** The wrapper at [a] is the one live wrapper with [shouldReset] set. *)
Definition owner (w : world sgr_ostream_wrapper) (a : addr) : Prop :=
  (exists o, objs w !! a = Some o /\ shouldReset o = true)
  /\ forall a' o', objs w !! a' = Some o' -> shouldReset o' = true -> a' = a.

(** A session handed on twice; the first holder dies at once, the last
    holder is destroyed while the second, moved from, is still alive and
    is written through afterwards. *)
Definition two_handoffs : list op :=
  Put 1 "a" :: Move 2 1 :: Destroy 1 :: Put 2 "b" :: Move 3 2
  :: Put 3 "c" :: Destroy 3 :: Put 2 "d" :: Destroy 2 :: nil.

End Chain.

(** ** The oldest revision: [SGR], [FGColor], [BGColor] *)

Module Legacy.
Import Color.

Record SGR := mk_SGR { str : string }.

Definition escape : string := String "027"%char "[".

(** [SGR(const std::string ansiString) : str(escape + ansiString + "m")]. *)
Definition SGR_of_string (ansiString : string) : SGR :=
  mk_SGR ((escape ++ ansiString) ++ "m").

(** [FGColor(const ANSIColor code) : Color(std::to_string(code))]. *)
Definition FGColor (code : ANSIColor) : SGR :=
  SGR_of_string (to_string (ANSIColor_value code)).

(** [BGColor(const ANSIColor code) : Color(std::to_string(code + 10))]. *)
Definition BGColor (code : ANSIColor) : SGR :=
  SGR_of_string (to_string (ANSIColor_value code + 10)).

(** [throw std::runtime_error("Invalid color component")]. *)
Inductive exception := runtime_error (what : string).

(** [FGColor(r, g, b) : Color("38;2;" + std::to_string(r) + ";" + ...)],
    whose body throws when [verifyColorComponent] rejects a component. *)
Definition FGColor_rgb (r g b : Z) : exception + SGR :=
  let base :=
    SGR_of_string ((((("38;2;" ++ to_string r) ++ ";") ++ to_string g) ++ ";")
                     ++ to_string b) in
  if negb (verifyColorComponent r && verifyColorComponent g
           && verifyColorComponent b)
  then inl (runtime_error "Invalid color component")
  else inr base.

(** [BGColor(r, g, b)], with ["48;2;"]. *)
Definition BGColor_rgb (r g b : Z) : exception + SGR :=
  let base :=
    SGR_of_string ((((("48;2;" ++ to_string r) ++ ";") ++ to_string g) ++ ";")
                     ++ to_string b) in
  if negb (verifyColorComponent r && verifyColorComponent g
           && verifyColorComponent b)
  then inl (runtime_error "Invalid color component")
  else inr base.

End Legacy.

(** ** The revision in between: [SGR] with chaining [operator+] *)

Module Chained.

(** The member [str] holds the parameters only. *)
Record SGR := mk_SGR { str : string }.

Definition escape : string := String "027"%char "[".

(** [operator<<(std::ostream & out, const SGR & c)
     { return out << escape << c.str << "m"; }]: three insertions into a
    plain stream, known by its buffer.  No object of class type is
    involved, so the object store holds nothing. *)
Definition operator_shl (out : streambuf) (c : SGR) : M Empty_set streambuf :=
  sputn out escape ;;
  sputn out (str c) ;;
  sputn out "m" ;;
  ret out.

(** [operator+(left, right)
     { return SGR(left.str + "m" + escape + right.str); }]. *)
Definition operator_plus (left right : SGR) : SGR :=
  mk_SGR (((str left ++ "m") ++ escape) ++ str right).

(** [operator,(left, right) { return left + right; }]. *)
Definition operator_comma (left right : SGR) : SGR :=
  operator_plus left right.

End Chained.

(** ** Tokens a client can build

    The constructor of [sgr] from a string is protected: a client gets
    tokens from the rendition codes, the colour factories and [operator+]
    (or the comma) only. *)

Module Api.
Import Sgr Color.

Inductive expr :=
| Code (code : SGRCode)
| Fg (code : ANSIColor)
| Bg (code : ANSIColor)
| FgRGB (r g b : Z)
| BgRGB (r g b : Z)
| Plus (e1 e2 : expr).

(** Evaluation, left operand first; an exception leaves the expression. *)
Fixpoint eval (e : expr) : exception + sgr :=
  match e with
  | Code code => inr (sgr_of_code code)
  | Fg code => inr (fg code)
  | Bg code => inr (bg code)
  | FgRGB r g b => fg_rgb r g b
  | BgRGB r g b => bg_rgb r g b
  | Plus e1 e2 =>
      match eval e1 with
      | inl x => inl x
      | inr a =>
          match eval e2 with
          | inl x => inl x
          | inr b => inr (operator_plus a b)
          end
      end
  end.

(** A decimal digit. *)
Definition is_digit (c : ascii) : bool :=
  match c with
  | "0" | "1" | "2" | "3" | "4" | "5" | "6" | "7" | "8" | "9" => true
  | _ => false
  end%char.

Definition is_semicolon (c : ascii) : bool :=
  match c with
  | ";" => true
  | _ => false
  end%char.

(** A list of SGR parameters: non-empty groups of digits separated by
    single semicolons.  [fresh] tells that a group is about to start, so a
    digit must come next. *)
Fixpoint parameters_from (fresh : bool) (s : string) : bool :=
  match s with
  | EmptyString => negb fresh
  | String c s' =>
      if is_digit c then parameters_from false s'
      else if is_semicolon c then negb fresh && parameters_from true s'
      else false
  end.

Definition parameters (s : string) : bool := parameters_from true s.

(** A string of digits. *)
Fixpoint all_digits (s : string) : bool :=
  match s with
  | EmptyString => true
  | String c s' => is_digit c && all_digits s'
  end.

End Api.

(** * Properties *)

(** ** Tokens *)

Example to_string_samples :
  to_string 0 = "0" /\ to_string 255 = "255" /\ to_string (-7) = "-7"
  /\ to_string 107 = "107".
Proof. repeat split. Qed.

Example fg_rgb_red :
  Color.fg_rgb 255 0 0 = inr (Sgr.mk_sgr "38;2;255;0;0").
Proof. reflexivity. Qed.

(** Facts on string concatenation used throughout. *)

Lemma append_assoc (s1 s2 s3 : string) : (s1 ++ s2) ++ s3 = s1 ++ (s2 ++ s3).
Proof.
  induction s1 as [|c s IH]; [reflexivity |].
  change (String c ((s ++ s2) ++ s3) = String c (s ++ s2 ++ s3)).
  now rewrite IH.
Qed.

Lemma append_nil_r (s : string) : s ++ "" = s.
Proof.
  induction s as [|c s IH]; [reflexivity |].
  change (String c (s ++ "") = String c s). now rewrite IH.
Qed.

Lemma append_cancel_l (s t1 t2 : string) : s ++ t1 = s ++ t2 -> t1 = t2.
Proof.
  induction s as [|c s IH]; intros E; [exact E |].
  change (String c (s ++ t1) = String c (s ++ t2)) in E.
  injection E as E. exact (IH E).
Qed.

(** [to_string] prints a numeral that reads back as the number printed. *)
Lemma stoi_to_string (n : Z) : stoi (to_string n) = Some n.
Proof.
  unfold stoi, to_string. rewrite NilEmpty.isi. simpl.
  now rewrite DecimalZ.of_to.
Qed.

Lemma to_string_inj (n m : Z) : to_string n = to_string m -> n = m.
Proof.
  intros E. pose proof (stoi_to_string n) as Hn.
  rewrite E, stoi_to_string in Hn. congruence.
Qed.

Lemma verifyColorComponent_spec (c : Z) :
  Color.verifyColorComponent c = true <-> 0 <= c <= 255.
Proof. unfold Color.verifyColorComponent. lia. Qed.

(** C5: when one of [r], [g], [b] lies outside [0,255], both 24-bit
    factories throw [invalid_color_component]; the result is the exception
    and carries no token. *)
Theorem rgb_out_of_range_throws (r g b : Z) :
  ~ (0 <= r <= 255 /\ 0 <= g <= 255 /\ 0 <= b <= 255) ->
  Color.fg_rgb r g b = inl Color.invalid_color_component
  /\ Color.bg_rgb r g b = inl Color.invalid_color_component
  /\ (forall foreground t, Color.color_rgb r g b foreground <> inr t).
Proof.
  intros Hout.
  assert (Hv : Color.verifyColorComponent r && Color.verifyColorComponent g
               && Color.verifyColorComponent b = false).
  { apply not_true_is_false. intros Ht.
    apply andb_true_iff in Ht as [Ht Hb].
    apply andb_true_iff in Ht as [Hr Hg].
    apply verifyColorComponent_spec in Hr, Hg, Hb. tauto. }
  unfold Color.fg_rgb, Color.bg_rgb, Color.color_rgb.
  rewrite Hv. simpl. repeat split; intros; discriminate.
Qed.

Lemma rgb_out_of_range_throws_witness :
  Color.fg_rgb 256 0 (-1) = inl Color.invalid_color_component
  /\ Color.bg_rgb 256 0 (-1) = inl Color.invalid_color_component
  /\ (forall foreground t, Color.color_rgb 256 0 (-1) foreground <> inr t).
Proof. apply (rgb_out_of_range_throws 256 0 (-1)). lia. Defined.

(** C6: for components in [0,255] the foreground factory succeeds with a
    token that renders as ESC [ 38;2; r ; g ; b m, and the background
    factory with one that renders as ESC [ 48;2; r ; g ; b m, the numbers
    in decimal. *)
Theorem rgb_in_range_renders (r g b : Z) :
  0 <= r <= 255 -> 0 <= g <= 255 -> 0 <= b <= 255 ->
  (exists t, Color.fg_rgb r g b = inr t
     /\ Sgr.toString t =
        String "027"%char "[38;2;" ++ to_string r ++ ";" ++ to_string g
          ++ ";" ++ to_string b ++ "m")
  /\ (exists t, Color.bg_rgb r g b = inr t
     /\ Sgr.toString t =
        String "027"%char "[48;2;" ++ to_string r ++ ";" ++ to_string g
          ++ ";" ++ to_string b ++ "m").
Proof.
  intros Hr Hg Hb.
  apply verifyColorComponent_spec in Hr, Hg, Hb.
  unfold Color.fg_rgb, Color.bg_rgb, Color.color_rgb.
  rewrite Hr, Hg, Hb. simpl negb. cbv iota.
  split; eexists; (split; [reflexivity |]);
    unfold Sgr.toString, Sgr.str, Sgr.escape, Sgr.terminator;
    rewrite !append_assoc; reflexivity.
Qed.

Lemma rgb_in_range_renders_witness :
  (exists t, Color.fg_rgb 255 0 0 = inr t
     /\ Sgr.toString t = String "027"%char "[38;2;255;0;0m")
  /\ (exists t, Color.bg_rgb 255 0 0 = inr t
     /\ Sgr.toString t = String "027"%char "[48;2;255;0;0m").
Proof. apply (rgb_in_range_renders 255 0 0); lia. Defined.

(** C7: [a + b] has the payload of [a], then a semicolon, then the payload
    of [b]; [+] is associative; [bold + underline] renders as ESC [ 1;4 m;
    and the comma operator gives the same token as [+]. *)
Theorem combine_payload_assoc :
  (forall a b, Sgr.str (Sgr.operator_plus a b) = Sgr.str a ++ ";" ++ Sgr.str b)
  /\ (forall a b c,
        Sgr.operator_plus (Sgr.operator_plus a b) c
        = Sgr.operator_plus a (Sgr.operator_plus b c))
  /\ Sgr.toString (Sgr.operator_plus Sgr.bold Sgr.underline)
     = String "027"%char "[1;4m"
  /\ (forall a b, Sgr.operator_comma a b = Sgr.operator_plus a b).
Proof.
  repeat split.
  - intros a b. simpl. apply append_assoc.
  - intros a b c. unfold Sgr.operator_plus. simpl. f_equal.
    now rewrite !append_assoc.
Qed.

(** C8: the payloads of the sixteen indexed colours, enumerator by
    enumerator: the foreground tokens of black, red, green, yellow, blue,
    magenta, cyan and white carry 30..37 and their background tokens
    40..47; the bright colours carry 90..97 and 100..107 in the same
    order.  So for every colour the payload of the background token is the
    number of the foreground token plus ten, the foreground numbers being
    30..37 for the normal and 90..97 for the bright colours.  The same
    holds for [BGColor] against [FGColor] in the oldest revision. *)
Theorem background_is_foreground_plus_10 :
  map (fun code => (Sgr.str (Color.fg code), Sgr.str (Color.bg code)))
    (Color.BLACK :: Color.RED :: Color.GREEN :: Color.YELLOW
     :: Color.BLUE :: Color.MAGENTA :: Color.CYAN :: Color.WHITE
     :: Color.BRIGHT_BLACK :: Color.BRIGHT_RED :: Color.BRIGHT_GREEN
     :: Color.BRIGHT_YELLOW :: Color.BRIGHT_BLUE :: Color.BRIGHT_MAGENTA
     :: Color.BRIGHT_CYAN :: Color.BRIGHT_WHITE :: nil)
  = ("30", "40") :: ("31", "41") :: ("32", "42") :: ("33", "43")
    :: ("34", "44") :: ("35", "45") :: ("36", "46") :: ("37", "47")
    :: ("90", "100") :: ("91", "101") :: ("92", "102") :: ("93", "103")
    :: ("94", "104") :: ("95", "105") :: ("96", "106") :: ("97", "107")
    :: nil
  /\ forall code : Color.ANSIColor,
      exists n : Z,
        Sgr.str (Color.fg code) = to_string n
        /\ Sgr.str (Color.bg code) = to_string (n + 10)
        /\ stoi (Sgr.str (Color.fg code)) = Some n
        /\ stoi (Sgr.str (Color.bg code)) = Some (n + 10)
        /\ (if Color.is_bright code then 90 <= n <= 97 else 30 <= n <= 37)
        /\ Legacy.str (Legacy.FGColor code)
           = String "027"%char "[" ++ to_string n ++ "m"
        /\ Legacy.str (Legacy.BGColor code)
           = String "027"%char "[" ++ to_string (n + 10) ++ "m".
Proof.
  split; [reflexivity |].
  intros code. exists (Color.ANSIColor_value code).
  destruct code; vm_compute; repeat split; congruence.
Qed.

(** ** Running commands *)

Lemma bind_run {O A B} (c : M O A) (k : A -> M O B) w a w1 :
  c w = Some (a, w1) -> bind c k w = k a w1.
Proof. intros E. unfold bind. now rewrite E. Qed.

Lemma bind_inv {O A B} (c : M O A) (k : A -> M O B) w r :
  bind c k w = Some r -> exists a w1, c w = Some (a, w1) /\ k a w1 = Some r.
Proof.
  unfold bind. destruct (c w) as [[a w1]|]; [| discriminate].
  intros E. now exists a, w1.
Qed.

(** Solves equations between maps built from [insert] and [delete]. *)
Ltac map_solve :=
  apply map_eq; intros ?;
  repeat first [rewrite lookup_insert | rewrite lookup_delete];
  repeat case_decide; subst; simpl; congruence.

Section WrapperRuns.
Import Sgr Wrapper.
Implicit Types (w : world sgr_ostream_wrapper) (o : sgr_ostream_wrapper).

Lemma wrapper_ctor_run w this out :
  objs w !! this = None ->
  ctor this out w
  = Some (tt, mk_world (bufs w) (<[this := mk_wrapper out true]> (objs w))).
Proof. intros Hf. unfold ctor, construct. now rewrite Hf. Qed.

Lemma wrapper_ctor_move_run w this other o :
  objs w !! other = Some o ->
  objs w !! this = None ->
  ctor_move this other w
  = Some (tt, mk_world (bufs w)
                (<[other := mk_wrapper (stream o) false]>
                   (<[this := mk_wrapper (stream o) (shouldReset o)]>
                      (objs w)))).
Proof.
  intros Ho Hf.
  assert (this <> other) by congruence.
  unfold ctor_move, bind, load, construct, assign. rewrite Ho, Hf.
  cbn [objs bufs]. rewrite lookup_insert_ne, Ho by done.
  cbn [objs bufs]. now rewrite lookup_insert_ne, Ho by done.
Qed.

Lemma wrapper_insert_run {T} `{Insertable T} w this o sink (t : T) :
  objs w !! this = Some o ->
  bufs w !! stream o = Some sink ->
  insert this t w
  = Some (this, mk_world (<[stream o := sink ++ formatted t]> (bufs w))
                  (objs w)).
Proof.
  intros Ho Hb. unfold insert, bind, load, sputn, ret.
  rewrite Ho. simpl. now rewrite Hb.
Qed.

Lemma wrapper_insert_sgr_run w this o sink c :
  objs w !! this = Some o ->
  bufs w !! stream o = Some sink ->
  insert_sgr this c w
  = Some (this, mk_world (<[stream o := sink ++ toString c]> (bufs w))
                  (objs w)).
Proof.
  intros Ho Hb. unfold insert_sgr, bind, load, sputn, ret.
  rewrite Ho. simpl. now rewrite Hb.
Qed.

Lemma wrapper_kill_armed w this o sink :
  objs w !! this = Some o ->
  shouldReset o = true ->
  bufs w !! stream o = Some sink ->
  kill this w
  = Some (tt, mk_world (<[stream o := sink ++ toString reset]> (bufs w))
                (<[this := mk_wrapper (stream o) false]> (objs w))).
Proof.
  intros Ho Hs Hb. unfold kill, bind, load. rewrite Ho, Hs.
  unfold assign. rewrite Ho.
  erewrite (wrapper_insert_run _ this (mk_wrapper (stream o) false));
    [reflexivity | simpl; apply lookup_insert_eq | exact Hb].
Qed.

Lemma wrapper_kill_idle w this o :
  objs w !! this = Some o ->
  shouldReset o = false ->
  kill this w = Some (tt, w).
Proof. intros Ho Hs. unfold kill, bind, load. now rewrite Ho, Hs. Qed.

Lemma wrapper_dtor_armed w this o sink :
  objs w !! this = Some o ->
  shouldReset o = true ->
  bufs w !! stream o = Some sink ->
  dtor this w
  = Some (tt, mk_world (<[stream o := sink ++ toString reset]> (bufs w))
                (delete this (objs w))).
Proof.
  intros Ho Hs Hb. unfold dtor.
  erewrite bind_run by (eapply wrapper_kill_armed; eassumption).
  unfold free. simpl. rewrite lookup_insert_eq. do 3 f_equal.
  apply delete_insert_eq.
Qed.

Lemma wrapper_dtor_idle w this o :
  objs w !! this = Some o ->
  shouldReset o = false ->
  dtor this w = Some (tt, mk_world (bufs w) (delete this (objs w))).
Proof.
  intros Ho Hs. unfold dtor.
  erewrite bind_run by (eapply wrapper_kill_idle; eassumption).
  unfold free. now rewrite Ho.
Qed.

Lemma wrapper_operator_shl_run w result wrapper out sink c :
  objs w !! result = None ->
  objs w !! wrapper = None ->
  result <> wrapper ->
  bufs w !! out = Some sink ->
  operator_shl result wrapper out c w
  = Some (result, mk_world (<[out := sink ++ toString c]> (bufs w))
                    (<[result := mk_wrapper out true]> (objs w))).
Proof.
  intros Hr Hl Hne Hb. unfold operator_shl.
  erewrite bind_run by (apply wrapper_ctor_run; exact Hl).
  erewrite bind_run by
    (eapply wrapper_insert_sgr_run; simpl;
     [apply lookup_insert_eq | exact Hb]).
  erewrite bind_run by
    (eapply wrapper_ctor_move_run; simpl;
     [apply lookup_insert_eq | now rewrite lookup_insert_ne]).
  erewrite bind_run by
    (eapply wrapper_dtor_idle; simpl; [apply lookup_insert_eq | reflexivity]).
  unfold ret. simpl. do 3 f_equal. map_solve.
Qed.

End WrapperRuns.

(** ** The session of [sgr_ostream_wrapper] *)

Section WrapperProperties.
Import Sgr Wrapper.
Implicit Types (w : world sgr_ostream_wrapper) (o : sgr_ostream_wrapper).

Lemma toString_reset : toString reset = ESC ++ "[0m".
Proof. reflexivity. Qed.

(** The statement [out << c << t;] writes the token, the formatted value
    and one reset, and leaves no object behind. *)
Lemma stmt_sgr_then_run {T} `{Insertable T} w result wrapper out sink c (t : T) :
  objs w !! result = None ->
  objs w !! wrapper = None ->
  result <> wrapper ->
  bufs w !! out = Some sink ->
  stmt_sgr_then result wrapper out c t w
  = Some (tt, mk_world
                (<[out := sink ++ toString c ++ formatted t ++ toString reset]>
                   (bufs w))
                (objs w)).
Proof.
  intros Hr Hl Hne Hb. unfold stmt_sgr_then.
  erewrite bind_run by (apply wrapper_operator_shl_run; eassumption).
  erewrite bind_run by
    (eapply wrapper_insert_run; simpl; apply lookup_insert_eq).
  erewrite wrapper_dtor_armed;
    [| simpl; apply lookup_insert_eq | reflexivity
     | simpl; apply lookup_insert_eq].
  simpl. do 3 f_equal.
  - rewrite !insert_insert_eq, !append_assoc. reflexivity.
  - rewrite delete_insert_eq. now apply delete_id.
Qed.

(** C1: [stream << bold << "Bold string";] on any sink appends exactly
    ESC [1m, the text, and a single ESC [0m; every object of the statement
    is gone afterwards. *)
Theorem bold_string_then_single_reset w result wrapper out sink :
  objs w !! result = None ->
  objs w !! wrapper = None ->
  result <> wrapper ->
  bufs w !! out = Some sink ->
  stmt_sgr_then result wrapper out bold "Bold string" w
  = Some (tt, mk_world
                (<[out := sink ++ ESC ++ "[1mBold string" ++ ESC ++ "[0m"]>
                   (bufs w))
                (objs w)).
Proof.
  intros Hr Hl Hne Hb.
  rewrite (stmt_sgr_then_run w result wrapper out sink) by assumption.
  reflexivity.
Qed.

(** The test [test_simple]: the sink is an empty [std::ostringstream]. *)
Lemma bold_string_then_single_reset_witness :
  stmt_sgr_then 1%nat 2%nat 0%nat bold "Bold string"
    (mk_world {[ 0%nat := "" ]} ∅)
  = Some (tt, mk_world
                {[ 0%nat := ESC ++ "[1mBold string" ++ ESC ++ "[0m" ]} ∅).
Proof.
  refine (bold_string_then_single_reset
            (mk_world {[ 0%nat := "" ]} ∅) 1%nat 2%nat 0%nat "" _ _ _ _);
    vm_compute; congruence.
Defined.

(** C10: the generic inserter appends the formatted value, and nothing
    else, to the buffer of the wrapper; the object store is untouched (so
    [shouldReset] keeps its value and no wrapper is created), and the
    result is the address of the wrapper itself.  For text the formatted
    value is the text. *)
Theorem generic_insert_frame {T} `{Insertable T} w this o sink (t : T) :
  objs w !! this = Some o ->
  bufs w !! stream o = Some sink ->
  insert this t w
  = Some (this, mk_world (<[stream o := sink ++ formatted t]> (bufs w))
                  (objs w))
  /\ (forall s : string, formatted s = s).
Proof.
  intros Ho Hb. split; [| reflexivity].
  now apply wrapper_insert_run.
Qed.

Lemma generic_insert_frame_witness :
  insert 1%nat "text"
    (mk_world {[ 0%nat := "abc" ]} {[ 1%nat := mk_wrapper 0%nat true ]})
  = Some (1%nat,
          mk_world {[ 0%nat := "abctext" ]}
            {[ 1%nat := mk_wrapper 0%nat true ]})
  /\ (forall s : string, formatted s = s).
Proof.
  refine (generic_insert_frame
            (mk_world {[ 0%nat := "abc" ]} {[ 1%nat := mk_wrapper 0%nat true ]})
            1%nat (mk_wrapper 0%nat true) "abc" "text" _ _);
    reflexivity.
Defined.

(** A chain of insertions writes its operands in order and returns the
    wrapper it started from, whose members it does not touch. *)
Lemma insert_chain_run xs : forall w this o sink,
  objs w !! this = Some o ->
  bufs w !! stream o = Some sink ->
  insert_chain this xs w
  = Some (this, mk_world (<[stream o := sink ++ rendered_all xs]> (bufs w))
                  (objs w)).
Proof.
  induction xs as [|x xs IH]; intros w this o sink Ho Hb.
  - cbn. unfold ret. destruct w as [m os]. cbn in *. do 3 f_equal.
    rewrite append_nil_r. symmetry. now apply insert_id.
  - cbn [insert_chain rendered_all].
    assert (Hx : insert_operand this x w
                 = Some (this, mk_world (<[stream o := sink ++ rendered x]> (bufs w))
                                 (objs w))).
    { destruct x as [t | c]; cbn [insert_operand rendered].
      - exact (wrapper_insert_run w this o sink t Ho Hb).
      - exact (wrapper_insert_sgr_run w this o sink c Ho Hb). }
    erewrite bind_run by exact Hx.
    rewrite (IH _ this o (sink ++ rendered x));
      [| exact Ho | cbn [bufs]; apply lookup_insert_eq].
    cbn [bufs objs]. now rewrite insert_insert_eq, append_assoc.
Qed.

(** Any statement [out << c << x1 << ... << xn;] writes the token, the
    operands, and one reset sequence from the destructor. *)
Lemma stmt_chain_run w result wrapper out sink c xs :
  objs w !! result = None ->
  objs w !! wrapper = None ->
  result <> wrapper ->
  bufs w !! out = Some sink ->
  stmt_chain result wrapper out c xs w
  = Some (tt, mk_world
                (<[out := sink ++ toString c ++ rendered_all xs ++ toString reset]>
                   (bufs w))
                (objs w)).
Proof.
  intros Hr Hl Hne Hb. unfold stmt_chain.
  erewrite bind_run by (apply wrapper_operator_shl_run; eassumption).
  erewrite bind_run by
    (eapply (insert_chain_run xs _ result (mk_wrapper out true));
     cbn [objs bufs stream]; apply lookup_insert_eq).
  erewrite wrapper_dtor_armed;
    [| cbn [objs]; apply lookup_insert_eq | reflexivity
     | cbn [bufs stream]; apply lookup_insert_eq].
  cbn [objs bufs stream]. do 3 f_equal.
  - rewrite !insert_insert_eq, !append_assoc. reflexivity.
  - rewrite delete_insert_eq. now apply delete_id.
Qed.

(** The test [test_reset]:
    [stream << bold << "Bold string" << reset << green_fg << "Green string";]
    on an empty string stream. *)
Example test_reset :
  stmt_chain 1%nat 2%nat 0%nat bold
    (Text "Bold string" :: Token reset :: Token Color.green_fg
     :: Text "Green string" :: nil)
    (mk_world {[ 0%nat := "" ]} ∅)
  = Some (tt, mk_world
                {[ 0%nat := ESC ++ "[1mBold string" ++ ESC ++ "[0m"
                              ++ ESC ++ "[32mGreen string" ++ ESC ++ "[0m" ]} ∅).
Proof. vm_compute. reflexivity. Qed.

(** The test [test_multi]:
    [stream << (bold, red_fg, white_bg) << "Bold red string white background";]. *)
Example test_multi :
  stmt_chain 1%nat 2%nat 0%nat
    (operator_comma (operator_comma bold Color.red_fg) Color.white_bg)
    (Text "Bold red string white background" :: nil)
    (mk_world {[ 0%nat := "" ]} ∅)
  = Some (tt, mk_world
                {[ 0%nat := ESC ++ "[1;31;47mBold red string white background"
                              ++ ESC ++ "[0m" ]} ∅).
Proof. vm_compute. reflexivity. Qed.

End WrapperProperties.

(** ** The session of [sgr_ostream] *)

Section OstreamRuns.
Import Sgr Ostream.
Implicit Types (w : world sgr_ostream) (o : sgr_ostream).

Lemma ostream_insert_run {T} `{Insertable T} w this o sink (t : T) :
  objs w !! this = Some o ->
  bufs w !! rdbuf o = Some sink ->
  insert this t w
  = Some (this, mk_world (<[rdbuf o := sink ++ formatted t]> (bufs w))
                  (objs w)).
Proof.
  intros Ho Hb. unfold insert, bind, load, sputn, ret.
  rewrite Ho. simpl. now rewrite Hb.
Qed.

Lemma ostream_ctor_run w this out sink c :
  objs w !! this = None ->
  bufs w !! out = Some sink ->
  ctor this out c w
  = Some (tt, mk_world (<[out := sink ++ toString c]> (bufs w))
                (<[this := mk_ostream out false]> (objs w))).
Proof.
  intros Hf Hb. unfold ctor, bind, construct. rewrite Hf.
  erewrite (ostream_insert_run _ this (mk_ostream out false));
    [reflexivity | simpl; apply lookup_insert_eq | exact Hb].
Qed.

Lemma ostream_kill_alive w this o sink :
  objs w !! this = Some o ->
  dead o = false ->
  bufs w !! rdbuf o = Some sink ->
  kill this w
  = Some (tt, mk_world (<[rdbuf o := sink ++ toString reset]> (bufs w))
                (<[this := mk_ostream (rdbuf o) true]> (objs w))).
Proof.
  intros Ho Hd Hb. unfold kill, bind, load. rewrite Ho, Hd.
  unfold assign. simpl. rewrite Ho.
  erewrite (ostream_insert_run _ this (mk_ostream (rdbuf o) true));
    [reflexivity | simpl; apply lookup_insert_eq | exact Hb].
Qed.

Lemma ostream_kill_dead w this o :
  objs w !! this = Some o ->
  dead o = true ->
  kill this w = Some (tt, w).
Proof. intros Ho Hd. unfold kill, bind, load. now rewrite Ho, Hd. Qed.

Lemma ostream_dtor_alive w this o sink :
  objs w !! this = Some o ->
  dead o = false ->
  bufs w !! rdbuf o = Some sink ->
  dtor this w
  = Some (tt, mk_world (<[rdbuf o := sink ++ toString reset]> (bufs w))
                (delete this (objs w))).
Proof.
  intros Ho Hd Hb. unfold dtor.
  erewrite bind_run by (eapply ostream_kill_alive; eassumption).
  unfold free. simpl. rewrite lookup_insert_eq. do 3 f_equal.
  apply delete_insert_eq.
Qed.

Lemma ostream_dtor_dead w this o :
  objs w !! this = Some o ->
  dead o = true ->
  dtor this w = Some (tt, mk_world (bufs w) (delete this (objs w))).
Proof.
  intros Ho Hd. unfold dtor.
  erewrite bind_run by (eapply ostream_kill_dead; eassumption).
  unfold free. now rewrite Ho.
Qed.

(** The member inserter first resets through the old stream, then builds
    the new one, which writes the token. *)
Lemma ostream_insert_sgr_run w result this o sink c :
  objs w !! this = Some o ->
  dead o = false ->
  objs w !! result = None ->
  bufs w !! rdbuf o = Some sink ->
  insert_sgr result this c w
  = Some (result,
          mk_world
            (<[rdbuf o := sink ++ toString reset ++ toString c]> (bufs w))
            (<[result := mk_ostream (rdbuf o) false]>
               (<[this := mk_ostream (rdbuf o) true]> (objs w)))).
Proof.
  intros Ho Hd Hf Hb.
  assert (this <> result) by congruence.
  unfold insert_sgr.
  erewrite bind_run by (eapply ostream_kill_alive; eassumption).
  unfold bind at 1, load at 1. cbn [objs bufs]. rewrite lookup_insert_eq.
  erewrite bind_run by
    (eapply ostream_ctor_run; cbn [objs bufs rdbuf];
     [now rewrite lookup_insert_ne | apply lookup_insert_eq]).
  unfold ret. cbn [objs bufs]. do 3 f_equal.
  rewrite insert_insert_eq, append_assoc. reflexivity.
Qed.

(** The statement [out << a << b;]. *)
Lemma ostream_stmt_sgr_sgr_run w t1 t2 out sink a b :
  objs w !! t1 = None ->
  objs w !! t2 = None ->
  t1 <> t2 ->
  bufs w !! out = Some sink ->
  stmt_sgr_sgr t1 t2 out a b w
  = Some (tt, mk_world
                (<[out := sink ++ toString a ++ toString reset
                            ++ toString b ++ toString reset]> (bufs w))
                (objs w)).
Proof.
  intros H1 H2 Hne Hb. unfold stmt_sgr_sgr, operator_shl.
  rewrite (bind_run (ctor t1 out a ;; ret t1) _ w t1
             (mk_world (<[out := sink ++ toString a]> (bufs w))
                (<[t1 := mk_ostream out false]> (objs w))))
    by (erewrite bind_run by (apply ostream_ctor_run; eassumption);
        reflexivity).
  erewrite bind_run by
    (eapply (ostream_insert_sgr_run _ t2 t1 (mk_ostream out false));
     cbn [objs bufs rdbuf];
     [apply lookup_insert_eq | reflexivity
      | now rewrite lookup_insert_ne | apply lookup_insert_eq]).
  cbn [rdbuf].
  erewrite bind_run by
    (eapply (ostream_dtor_alive _ t2 (mk_ostream out false));
     cbn [objs bufs rdbuf];
     [apply lookup_insert_eq | reflexivity | apply lookup_insert_eq]).
  cbn [rdbuf objs bufs].
  erewrite (ostream_dtor_dead _ t1 (mk_ostream out true));
    [| cbn [objs]; rewrite lookup_delete_ne, lookup_insert_ne,
         lookup_insert_eq by done; reflexivity
     | reflexivity].
  cbn [objs bufs]. do 3 f_equal.
  - rewrite !insert_insert_eq, !append_assoc. reflexivity.
  - map_solve.
Qed.

End OstreamRuns.

(** ** One automatic reset per session *)

Section KillOnce.
Import Sgr.

Lemma wrapper_kill_times_idle n (w : world Wrapper.sgr_ostream_wrapper) this o :
  objs w !! this = Some o ->
  Wrapper.shouldReset o = false ->
  Wrapper.kill_times n this w = Some (tt, w).
Proof.
  intros Ho Hs. induction n as [|n IH]; [reflexivity |].
  cbn [Wrapper.kill_times].
  erewrite bind_run by (eapply wrapper_kill_idle; eassumption).
  exact IH.
Qed.

Lemma ostream_kill_times_dead n (w : world Ostream.sgr_ostream) this o :
  objs w !! this = Some o ->
  Ostream.dead o = true ->
  Ostream.kill_times n this w = Some (tt, w).
Proof.
  intros Ho Hs. induction n as [|n IH]; [reflexivity |].
  cbn [Ostream.kill_times].
  erewrite bind_run by (eapply ostream_kill_dead; eassumption).
  exact IH.
Qed.

(** C2: calling [kill] any number of times on a session writes the reset
    string at most once: not at all when the flag is already clear (or
    [kill] is not called), and once, by the first call, otherwise; the
    first call clears the flag and the world after [n+1] calls is the
    world after one.  This holds for [sgr_ostream_wrapper] (flag
    [shouldReset]) and for [sgr_ostream] (flag [dead]). *)
Theorem kill_resets_at_most_once (n : nat) :
  (forall (w : world Wrapper.sgr_ostream_wrapper) this o sink,
      objs w !! this = Some o ->
      bufs w !! Wrapper.stream o = Some sink ->
      Wrapper.kill_times n this w
      = Some (tt,
              match n with
              | O => w
              | S _ =>
                  if Wrapper.shouldReset o
                  then mk_world
                         (<[Wrapper.stream o := sink ++ toString reset]> (bufs w))
                         (<[this := Wrapper.mk_wrapper (Wrapper.stream o) false]>
                            (objs w))
                  else w
              end))
  /\ (forall (w : world Ostream.sgr_ostream) this o sink,
      objs w !! this = Some o ->
      bufs w !! Ostream.rdbuf o = Some sink ->
      Ostream.kill_times n this w
      = Some (tt,
              match n with
              | O => w
              | S _ =>
                  if Ostream.dead o
                  then w
                  else mk_world
                         (<[Ostream.rdbuf o := sink ++ toString reset]> (bufs w))
                         (<[this := Ostream.mk_ostream (Ostream.rdbuf o) true]>
                            (objs w))
              end)).
Proof.
  split; intros w this o sink Ho Hb; (destruct n as [|n]; [reflexivity |]).
  - cbn [Wrapper.kill_times].
    destruct (Wrapper.shouldReset o) eqn:Hs.
    + erewrite bind_run by (eapply wrapper_kill_armed; eassumption).
      eapply wrapper_kill_times_idle;
        [cbn [objs]; apply lookup_insert_eq | reflexivity].
    + erewrite bind_run by (eapply wrapper_kill_idle; eassumption).
      eapply wrapper_kill_times_idle; eassumption.
  - cbn [Ostream.kill_times].
    destruct (Ostream.dead o) eqn:Hs.
    + erewrite bind_run by (eapply ostream_kill_dead; eassumption).
      eapply ostream_kill_times_dead; eassumption.
    + erewrite bind_run by (eapply ostream_kill_alive; eassumption).
      eapply ostream_kill_times_dead;
        [cbn [objs]; apply lookup_insert_eq | reflexivity].
Qed.

Lemma kill_resets_at_most_once_witness :
  Wrapper.kill_times 3 1%nat
    (mk_world {[ 0%nat := "x" ]} {[ 1%nat := Wrapper.mk_wrapper 0%nat true ]})
  = Some (tt, mk_world {[ 0%nat := "x" ++ ESC ++ "[0m" ]}
                {[ 1%nat := Wrapper.mk_wrapper 0%nat false ]})
  /\ Ostream.kill_times 3 1%nat
    (mk_world {[ 0%nat := "x" ]} {[ 1%nat := Ostream.mk_ostream 0%nat false ]})
  = Some (tt, mk_world {[ 0%nat := "x" ++ ESC ++ "[0m" ]}
                {[ 1%nat := Ostream.mk_ostream 0%nat true ]}).
Proof.
  split.
  - refine (proj1 (kill_resets_at_most_once 3)
              (mk_world {[ 0%nat := "x" ]}
                 {[ 1%nat := Wrapper.mk_wrapper 0%nat true ]})
              1%nat (Wrapper.mk_wrapper 0%nat true) "x" _ _); reflexivity.
  - refine (proj2 (kill_resets_at_most_once 3)
              (mk_world {[ 0%nat := "x" ]}
                 {[ 1%nat := Ostream.mk_ostream 0%nat false ]})
              1%nat (Ostream.mk_ostream 0%nat false) "x" _ _); reflexivity.
Defined.

End KillOnce.

(** ** The reset token written by hand *)

Section ExplicitReset.
Import Sgr Wrapper.
Implicit Types (w : world sgr_ostream_wrapper) (o : sgr_ostream_wrapper).

Lemma stmt_sgr_run w result wrapper out sink c :
  objs w !! result = None ->
  objs w !! wrapper = None ->
  result <> wrapper ->
  bufs w !! out = Some sink ->
  stmt_sgr result wrapper out c w
  = Some (tt, mk_world (<[out := sink ++ toString c ++ toString reset]> (bufs w))
                (objs w)).
Proof.
  intros Hr Hl Hne Hb. unfold stmt_sgr.
  erewrite bind_run by (apply wrapper_operator_shl_run; eassumption).
  erewrite wrapper_dtor_armed;
    [| cbn [objs]; apply lookup_insert_eq | reflexivity
     | cbn [bufs stream]; apply lookup_insert_eq].
  cbn [objs bufs stream]. do 3 f_equal.
  - rewrite !insert_insert_eq, !append_assoc. reflexivity.
  - rewrite delete_insert_eq. now apply delete_id.
Qed.

Lemma stmt_sgr_sgr_run w result wrapper out sink a b :
  objs w !! result = None ->
  objs w !! wrapper = None ->
  result <> wrapper ->
  bufs w !! out = Some sink ->
  stmt_sgr_sgr result wrapper out a b w
  = Some (tt, mk_world
                (<[out := sink ++ toString a ++ toString b ++ toString reset]>
                   (bufs w))
                (objs w)).
Proof.
  intros Hr Hl Hne Hb. unfold stmt_sgr_sgr.
  erewrite bind_run by (apply wrapper_operator_shl_run; eassumption).
  erewrite bind_run by
    (eapply wrapper_insert_sgr_run; cbn [objs bufs stream];
     apply lookup_insert_eq).
  erewrite wrapper_dtor_armed;
    [| cbn [objs]; apply lookup_insert_eq | reflexivity
     | cbn [bufs stream]; apply lookup_insert_eq].
  cbn [objs bufs stream]. do 3 f_equal.
  - rewrite !insert_insert_eq, !append_assoc. reflexivity.
  - rewrite delete_insert_eq. now apply delete_id.
Qed.

(** C3 as stated fails.  [out << reset;] on an empty sink leaves a
    session whose [shouldReset] is set, and the end of the statement
    writes a second ESC [0m; likewise [out << bold << reset;] ends with
    two reset sequences. *)
Lemma explicit_reset_is_followed_by_automatic_reset :
  operator_shl 1%nat 2%nat 0%nat reset (mk_world {[ 0%nat := "" ]} ∅)
  = Some (1%nat, mk_world {[ 0%nat := ESC ++ "[0m" ]}
                   {[ 1%nat := mk_wrapper 0%nat true ]})
  /\ stmt_sgr 1%nat 2%nat 0%nat reset (mk_world {[ 0%nat := "" ]} ∅)
     = Some (tt, mk_world {[ 0%nat := ESC ++ "[0m" ++ ESC ++ "[0m" ]} ∅)
  /\ stmt_sgr 1%nat 2%nat 0%nat reset (mk_world {[ 0%nat := "" ]} ∅)
     <> Some (tt, mk_world {[ 0%nat := ESC ++ "[0m" ]} ∅)
  /\ stmt_sgr_sgr 1%nat 2%nat 0%nat bold reset (mk_world {[ 0%nat := "" ]} ∅)
     = Some (tt, mk_world
                   {[ 0%nat := ESC ++ "[1m" ++ ESC ++ "[0m" ++ ESC ++ "[0m" ]} ∅).
Proof. vm_compute. repeat split; congruence. Qed.

(** C3 as the code has it: inserting the reset token through a session
    writes ESC [0m and leaves every wrapper, hence [shouldReset], as it
    was; the session that [out << c] returns has [shouldReset] set
    whatever the token [c] is, the reset token included; so
    [out << reset;] writes ESC [0m twice, the second by the destructor. *)
Theorem reset_token_keeps_obligation w result wrapper out sink :
  objs w !! result = None ->
  objs w !! wrapper = None ->
  result <> wrapper ->
  bufs w !! out = Some sink ->
  (forall this o, objs w !! this = Some o -> stream o = out ->
     insert_sgr this reset w
     = Some (this, mk_world (<[out := sink ++ ESC ++ "[0m"]> (bufs w)) (objs w)))
  /\ (forall c,
        operator_shl result wrapper out c w
        = Some (result, mk_world (<[out := sink ++ toString c]> (bufs w))
                          (<[result := mk_wrapper out true]> (objs w))))
  /\ stmt_sgr result wrapper out reset w
     = Some (tt, mk_world (<[out := sink ++ ESC ++ "[0m" ++ ESC ++ "[0m"]> (bufs w))
                   (objs w)).
Proof.
  intros Hr Hl Hne Hb. repeat split.
  - intros this o Ho Hs. subst out.
    now rewrite (wrapper_insert_sgr_run w this o sink).
  - intros c. now apply wrapper_operator_shl_run.
  - now rewrite (stmt_sgr_run w result wrapper out sink).
Qed.

Lemma reset_token_keeps_obligation_witness :
  stmt_sgr 1%nat 2%nat 0%nat reset (mk_world {[ 0%nat := "abc" ]} ∅)
  = Some (tt, mk_world {[ 0%nat := "abc" ++ ESC ++ "[0m" ++ ESC ++ "[0m" ]} ∅).
Proof.
  refine (proj2 (proj2 (reset_token_keeps_obligation
                          (mk_world {[ 0%nat := "abc" ]} ∅)
                          1%nat 2%nat 0%nat "abc" _ _ _ _)));
    vm_compute; congruence.
Defined.

End ExplicitReset.

(** ** Handing a session from wrapper to wrapper *)

Section HandOff.
Import Sgr Wrapper Chain.
Implicit Types (w : world sgr_ostream_wrapper) (o : sgr_ostream_wrapper).

Lemma length_append (s t : string) :
  String.length (s ++ t) = (String.length s + String.length t)%nat.
Proof.
  induction s as [|c s IH]; [reflexivity |].
  change (S (String.length (s ++ t)) = S (String.length s + String.length t)).
  now rewrite IH.
Qed.

Lemma insert_same_buffer (m : gmap nat string) b s :
  m !! b = Some s -> m = <[b := s ++ ""]> m.
Proof. intros E. rewrite append_nil_r. symmetry. now apply insert_id. Qed.

(** One operation, started in scope on a world whose wrappers all write
    to [b]: it runs, the live set follows [live_after], and the wrappers
    still all write to [b]. *)
Lemma step_runs i w b sink :
  in_scope (dom (objs w)) i = true ->
  all_on w b ->
  bufs w !! b = Some sink ->
  exists w1, step i w = Some (tt, w1)
    /\ dom (objs w1) = live_after (dom (objs w)) i
    /\ all_on w1 b
    /\ (unarmed w ->
        unarmed w1 /\ bufs w1 = <[b := sink ++ written i]> (bufs w))
    /\ (forall a, owner w a ->
        (exists a', owner w1 a'
           /\ bufs w1 = <[b := sink ++ written i]> (bufs w))
        \/ (i = Destroy a /\ unarmed w1
            /\ bufs w1 = <[b := sink ++ toString reset]> (bufs w))).
Proof.
  intros Hin Hall Hb. destruct i as [dst src | a t | a c | a]; cbn in Hin.
  - (* Move *)
    apply andb_true_iff in Hin as [Hs Hd].
    apply bool_decide_eq_true in Hs, Hd.
    apply elem_of_dom in Hs as [o Ho]. apply not_elem_of_dom in Hd.
    assert (Hne : dst <> src) by congruence.
    pose proof (Hall _ _ Ho) as Hso. subst b.
    eexists. split; [apply (wrapper_ctor_move_run w dst src o Ho Hd) |].
    cbn [objs bufs step live_after written]. split_and!.
    + rewrite dom_insert_lookup_L, dom_insert_L; [reflexivity |].
      rewrite lookup_insert_ne by done. now exists o.
    + intros a' o'. cbn [objs]. rewrite !lookup_insert.
      repeat case_decide; subst.
      * now intros [= <-].
      * now intros [= <-].
      * apply Hall.
    + intros Hun. split; [| now apply insert_same_buffer].
      intros a' o'. cbn [objs]. rewrite !lookup_insert.
      repeat case_decide; subst.
      * now intros [= <-].
      * intros [= <-]. cbn. exact (Hun _ _ Ho).
      * apply Hun.
    + intros a [[oa [Hoa Hta]] Huniq]. left.
      exists (if shouldReset o then dst else a).
      split; [| now apply insert_same_buffer].
      destruct (shouldReset o) eqn:Hf.
      * (* the source was the owner *)
        assert (src = a) by (eapply Huniq; eassumption). subst a.
        split.
        -- eexists. cbn [objs].
           rewrite lookup_insert_ne, lookup_insert_eq by done.
           split; reflexivity.
        -- intros a' o'. cbn [objs]. rewrite !lookup_insert.
           repeat case_decide; subst.
           ++ intros [= <-]. discriminate.
           ++ reflexivity.
           ++ intros Ho' Ht'. pose proof (Huniq _ _ Ho' Ht'). congruence.
      * assert (a <> src) by congruence.
        assert (a <> dst) by congruence.
        split.
        -- exists oa. cbn [objs]. now rewrite !lookup_insert_ne by done.
        -- intros a' o'. cbn [objs]. rewrite !lookup_insert.
           repeat case_decide; subst.
           ++ intros [= <-]. discriminate.
           ++ intros [= <-]. cbn. congruence.
           ++ apply Huniq.
  - (* Put *)
    apply bool_decide_eq_true in Hin. apply elem_of_dom in Hin as [o Ho].
    pose proof (Hall _ _ Ho) as Hso. subst b.
    eexists. split.
    { cbn [step]. erewrite bind_run by
        (apply (wrapper_insert_run w a o sink t Ho Hb)). reflexivity. }
    cbn [objs bufs live_after written]. split_and!;
      [reflexivity | exact Hall | intros Hun; split; [exact Hun | reflexivity] |].
    intros a0 Ha0. left. exists a0. split; [exact Ha0 | reflexivity].
  - (* PutSgr *)
    apply bool_decide_eq_true in Hin. apply elem_of_dom in Hin as [o Ho].
    pose proof (Hall _ _ Ho) as Hso. subst b.
    eexists. split.
    { cbn [step]. erewrite bind_run by
        (apply (wrapper_insert_sgr_run w a o sink c Ho Hb)). reflexivity. }
    cbn [objs bufs live_after written]. split_and!;
      [reflexivity | exact Hall | intros Hun; split; [exact Hun | reflexivity] |].
    intros a0 Ha0. left. exists a0. split; [exact Ha0 | reflexivity].
  - (* Destroy *)
    apply bool_decide_eq_true in Hin. apply elem_of_dom in Hin as [o Ho].
    pose proof (Hall _ _ Ho) as Hso. subst b.
    assert (Hall' : forall m, all_on (mk_world m (delete a (objs w))) (stream o)).
    { intros m a' o' Ho'. cbn [objs] in Ho'.
      apply lookup_delete_Some in Ho' as [_ Ho'].
      eapply Hall; eassumption. }
    assert (Hun' : forall m, unarmed w ->
                             unarmed (mk_world m (delete a (objs w)))).
    { intros m Hun a' o' Ho'. cbn [objs] in Ho'.
      apply lookup_delete_Some in Ho' as [_ Ho'].
      eapply Hun; eassumption. }
    destruct (shouldReset o) eqn:Hf.
    + eexists. split; [apply (wrapper_dtor_armed w a o sink Ho Hf Hb) |].
      cbn [objs bufs live_after written]. split_and!.
      * apply dom_delete_L.
      * apply Hall'.
      * intros Hun. pose proof (Hun _ _ Ho). congruence.
      * intros a0 [_ Huniq].
        assert (a = a0) by (eapply Huniq; eassumption). subst a0.
        right. split_and!; [reflexivity | | reflexivity].
        intros a' o' Ho'. cbn [objs] in Ho'.
        apply lookup_delete_Some in Ho' as [Hne' Ho'].
        destruct (shouldReset o') eqn:Hf'; [| reflexivity].
        exfalso. apply Hne'. symmetry. eapply Huniq; eassumption.
    + eexists. split; [apply (wrapper_dtor_idle w a o Ho Hf) |].
      cbn [objs bufs live_after written]. split_and!.
      * apply dom_delete_L.
      * apply Hall'.
      * intros Hun. split; [now apply Hun' | now apply insert_same_buffer].
      * intros a0 [[oa [Hoa Hta]] Huniq]. left. exists a0.
        split; [| now apply insert_same_buffer].
        assert (a <> a0) by congruence.
        split.
        -- exists oa. cbn [objs]. now rewrite lookup_delete_ne.
        -- intros a' o' Ho'. cbn [objs] in Ho'.
           apply lookup_delete_Some in Ho' as [_ Ho'].
           eapply Huniq; eassumption.
Qed.

(** Once no wrapper is armed, the rest of the program writes only what
    the client writes. *)
Lemma exec_unarmed p : forall w b sink,
  well_scoped (dom (objs w)) p = true ->
  all_on w b ->
  unarmed w ->
  bufs w !! b = Some sink ->
  exec p w = Some (tt, mk_world (<[b := sink ++ output p]> (bufs w)) ∅).
Proof.
  induction p as [|i p IH]; intros w b sink Hws Hall Hun Hb.
  - cbn in Hws. apply bool_decide_eq_true, dom_empty_inv_L in Hws.
    destruct w as [m os]. cbn in *. subst os. unfold ret.
    do 3 f_equal. now apply insert_same_buffer.
  - cbn [well_scoped] in Hws. apply andb_true_iff in Hws as [Hin Hws].
    destruct (step_runs i w b sink Hin Hall Hb)
      as (w1 & Hstep & Hdom & Hall1 & Hun1 & _).
    destruct (Hun1 Hun) as [Hun1' Hb1].
    cbn [exec]. erewrite bind_run by exact Hstep.
    rewrite (IH w1 b (sink ++ written i));
      [| now rewrite Hdom | assumption | assumption
       | rewrite Hb1; apply lookup_insert_eq].
    rewrite Hb1, insert_insert_eq. cbn [output].
    now rewrite append_assoc.
Qed.

(** While one wrapper is armed, the program reaches the point where that
    wrapper is destroyed; the reset is written there, and only there. *)
Lemma exec_owner p : forall w b sink a,
  well_scoped (dom (objs w)) p = true ->
  all_on w b ->
  owner w a ->
  bufs w !! b = Some sink ->
  exists p1 x p2,
    p = (p1 ++ Destroy x :: p2)%list
    /\ exec p w
       = Some (tt, mk_world
                     (<[b := sink ++ output p1 ++ toString reset ++ output p2]>
                        (bufs w)) ∅).
Proof.
  induction p as [|i p IH]; intros w b sink a Hws Hall Hown Hb.
  - cbn in Hws. apply bool_decide_eq_true, dom_empty_inv_L in Hws.
    destruct Hown as [[o [Ho _]] _]. rewrite Hws in Ho.
    now rewrite lookup_empty in Ho.
  - cbn [well_scoped] in Hws. apply andb_true_iff in Hws as [Hin Hws].
    destruct (step_runs i w b sink Hin Hall Hb)
      as (w1 & Hstep & Hdom & Hall1 & _ & Hown1).
    destruct (Hown1 a Hown) as [(a' & Hown' & Hb1) | (-> & Hun1 & Hb1)].
    + destruct (IH w1 b (sink ++ written i) a') as (p1 & x & p2 & -> & Hex);
        [now rewrite Hdom | assumption | assumption
         | rewrite Hb1; apply lookup_insert_eq |].
      exists (i :: p1), x, p2. split; [reflexivity |].
      cbn [exec]. erewrite bind_run by exact Hstep.
      rewrite Hex, Hb1, insert_insert_eq. cbn [output].
      now rewrite !append_assoc.
    + exists nil, a, p. split; [reflexivity |].
      cbn [exec]. erewrite bind_run by exact Hstep.
      rewrite (exec_unarmed p w1 b (sink ++ toString reset));
        [| now rewrite Hdom | assumption | assumption
         | rewrite Hb1; apply lookup_insert_eq].
      rewrite Hb1, insert_insert_eq. cbn [output].
      now rewrite !append_assoc.
Qed.

(** C4: the move constructor gives the new wrapper the stream and the
    [shouldReset] of the old one and clears the flag of the old one,
    whose [kill] then changes nothing; the wrapper returned by
    [out << c] is armed and nothing but the token has been written; and
    every well-scoped program of moves, insertions and destructions,
    started with one armed wrapper, writes the reset sequence exactly
    once, when the wrapper that holds the obligation is destroyed. *)
Theorem obligation_moves_with_session :
  (forall w this other o,
      objs w !! other = Some o ->
      objs w !! this = None ->
      exists w', ctor_move this other w = Some (tt, w')
        /\ bufs w' = bufs w
        /\ objs w' !! this = Some (mk_wrapper (stream o) (shouldReset o))
        /\ objs w' !! other = Some (mk_wrapper (stream o) false)
        /\ kill other w' = Some (tt, w'))
  /\ (forall w result wrapper out sink c,
      objs w !! result = None ->
      objs w !! wrapper = None ->
      result <> wrapper ->
      bufs w !! out = Some sink ->
      operator_shl result wrapper out c w
      = Some (result, mk_world (<[out := sink ++ toString c]> (bufs w))
                        (<[result := mk_wrapper out true]> (objs w))))
  /\ (forall p w b sink a,
      well_scoped (dom (objs w)) p = true ->
      all_on w b ->
      owner w a ->
      bufs w !! b = Some sink ->
      exists p1 x p2,
        p = (p1 ++ Destroy x :: p2)%list
        /\ exec p w
           = Some (tt, mk_world
                         (<[b := sink ++ output p1 ++ toString reset
                                     ++ output p2]> (bufs w)) ∅)).
Proof.
  split_and!.
  - intros w this other o Ho Hf.
    assert (this <> other) by congruence.
    eexists. split; [apply (wrapper_ctor_move_run w this other o Ho Hf) |].
    cbn [objs bufs]. split_and!.
    + reflexivity.
    + now rewrite lookup_insert_ne, lookup_insert_eq.
    + apply lookup_insert_eq.
    + eapply wrapper_kill_idle; [cbn [objs]; apply lookup_insert_eq |].
      reflexivity.
  - intros. now apply wrapper_operator_shl_run.
  - intros p w b sink a. apply exec_owner.
Qed.

Lemma obligation_moves_with_session_witness :
  exists p1 x p2,
    two_handoffs = (p1 ++ Destroy x :: p2)%list
    /\ exec two_handoffs
         (mk_world {[ 0%nat := "" ]} {[ 1%nat := mk_wrapper 0%nat true ]})
       = Some (tt, mk_world
                     (<[0%nat := "" ++ output p1 ++ toString reset
                                    ++ output p2]> {[ 0%nat := "" ]}) ∅).
Proof.
  refine (proj2 (proj2 obligation_moves_with_session) two_handoffs
            (mk_world {[ 0%nat := "" ]} {[ 1%nat := mk_wrapper 0%nat true ]})
            0%nat "" 1%nat _ _ _ _).
  - vm_compute. reflexivity.
  - intros a o Ho. cbn [objs] in Ho.
    apply lookup_singleton_Some in Ho as [_ <-]. reflexivity.
  - split.
    + eexists. split; [cbn [objs]; apply lookup_singleton_eq | reflexivity].
    + intros a o Ho _. cbn [objs] in Ho.
      now apply lookup_singleton_Some in Ho as [<- _].
  - reflexivity.
Defined.

Example two_handoffs_output :
  exec two_handoffs
    (mk_world {[ 0%nat := "" ]} {[ 1%nat := mk_wrapper 0%nat true ]})
  = Some (tt, mk_world {[ 0%nat := "abc" ++ ESC ++ "[0md" ]} ∅).
Proof. vm_compute. reflexivity. Qed.

End HandOff.

(** ** The two sessions compared *)

Section Revisions.
Import Sgr.

Lemma reset_prefix_differs (s t : string) :
  toString reset ++ s ++ t <> s ++ t.
Proof.
  intros E. apply (f_equal String.length) in E.
  rewrite length_append in E.
  change (String.length (toString reset)) with 4%nat in E. lia.
Qed.

(** C9: for the statement [out << a << b;] the two sessions write
    different bytes, whatever the tokens [a] and [b] are (so also for two
    tokens other than reset): [sgr_ostream] writes a reset sequence
    between the escape strings of [a] and [b], [sgr_ostream_wrapper]
    writes the escape string of [b] right after that of [a]; both end
    with one reset sequence. *)
Theorem revisions_differ_on_two_tokens
    (a b : sgr) (wo : world Ostream.sgr_ostream)
    (ww : world Wrapper.sgr_ostream_wrapper) t1 t2 out sink :
  objs wo !! t1 = None -> objs wo !! t2 = None ->
  objs ww !! t1 = None -> objs ww !! t2 = None ->
  t1 <> t2 ->
  bufs wo !! out = Some sink ->
  bufs ww !! out = Some sink ->
  exists so sw,
    Ostream.stmt_sgr_sgr t1 t2 out a b wo
    = Some (tt, mk_world (<[out := so]> (bufs wo)) (objs wo))
    /\ Wrapper.stmt_sgr_sgr t1 t2 out a b ww
       = Some (tt, mk_world (<[out := sw]> (bufs ww)) (objs ww))
    /\ so = sink ++ toString a ++ toString reset ++ toString b ++ toString reset
    /\ sw = sink ++ toString a ++ toString b ++ toString reset
    /\ so <> sw.
Proof.
  intros Ho1 Ho2 Hw1 Hw2 Hne Hbo Hbw.
  eexists _, _. split_and!.
  - apply ostream_stmt_sgr_sgr_run; eassumption.
  - apply stmt_sgr_sgr_run; eassumption.
  - reflexivity.
  - reflexivity.
  - intros E. do 2 apply append_cancel_l in E.
    exact (reset_prefix_differs _ _ E).
Qed.

Lemma revisions_differ_on_two_tokens_witness :
  bold <> reset /\ underline <> reset
  /\ exists so sw,
    Ostream.stmt_sgr_sgr 1%nat 2%nat 0%nat bold underline
      (mk_world {[ 0%nat := "" ]} ∅)
    = Some (tt, mk_world (<[0%nat := so]> {[ 0%nat := "" ]}) ∅)
    /\ Wrapper.stmt_sgr_sgr 1%nat 2%nat 0%nat bold underline
         (mk_world {[ 0%nat := "" ]} ∅)
       = Some (tt, mk_world (<[0%nat := sw]> {[ 0%nat := "" ]}) ∅)
    /\ so = "" ++ toString bold ++ toString reset
               ++ toString underline ++ toString reset
    /\ sw = "" ++ toString bold ++ toString underline ++ toString reset
    /\ so <> sw.
Proof.
  split; [discriminate |]. split; [discriminate |].
  refine (revisions_differ_on_two_tokens bold underline
            (mk_world {[ 0%nat := "" ]} ∅) (mk_world {[ 0%nat := "" ]} ∅)
            1%nat 2%nat 0%nat "" _ _ _ _ _ _ _);
    vm_compute; congruence.
Defined.

Example two_tokens_bytes :
  Ostream.stmt_sgr_sgr 1%nat 2%nat 0%nat bold underline
    (mk_world {[ 0%nat := "" ]} ∅)
  = Some (tt, mk_world
                {[ 0%nat := ESC ++ "[1m" ++ ESC ++ "[0m" ++ ESC ++ "[4m"
                              ++ ESC ++ "[0m" ]} ∅)
  /\ Wrapper.stmt_sgr_sgr 1%nat 2%nat 0%nat bold underline
       (mk_world {[ 0%nat := "" ]} ∅)
     = Some (tt, mk_world
                   {[ 0%nat := ESC ++ "[1m" ++ ESC ++ "[4m" ++ ESC ++ "[0m" ]} ∅).
Proof. vm_compute. split; reflexivity. Qed.

End Revisions.

(** * Further properties *)

(** ** Tokens and their wire strings *)

Section TokenFacts.
Import Sgr Color.

Lemma append_cancel_r (s t u : string) : s ++ u = t ++ u -> s = t.
Proof.
  revert t. induction s as [|c s IH]; intros [|d t] E.
  - reflexivity.
  - change (u = String d (t ++ u)) in E.
    apply (f_equal String.length) in E.
    cbn [String.length] in E. rewrite length_append in E. lia.
  - change (String c (s ++ u) = u) in E.
    apply (f_equal String.length) in E.
    cbn [String.length] in E. rewrite length_append in E. lia.
  - change (String c (s ++ u) = String d (t ++ u)) in E.
    injection E as -> E. f_equal. now apply IH.
Qed.

Lemma toString_inj (a b : sgr) : toString a = toString b -> a = b.
Proof.
  destruct a as [sa], b as [sb]. unfold toString. cbn [str]. intros E.
  apply append_cancel_r, append_cancel_l in E. now subst.
Qed.

Lemma SGRCode_value_inj (k k' : SGRCode) :
  SGRCode_value k = SGRCode_value k' -> k = k'.
Proof. destruct k, k'; intros E; try reflexivity; discriminate E. Qed.

Lemma SGRCode_value_range (k : SGRCode) :
  0 <= SGRCode_value k <= 9 \/ 51 <= SGRCode_value k <= 53.
Proof. destruct k; cbn; lia. Qed.

Lemma ANSIColor_value_inj (c c' : ANSIColor) :
  ANSIColor_value c = ANSIColor_value c' -> c = c'.
Proof. destruct c, c'; intros E; try reflexivity; discriminate E. Qed.

Lemma ANSIColor_value_range (c : ANSIColor) :
  30 <= ANSIColor_value c <= 37 \/ 90 <= ANSIColor_value c <= 97.
Proof. destruct c; cbn; lia. Qed.

(** X1: the payload of the token of a rendition code is the decimal
    numeral of the code, which reads back as the code's number; the token
    renders as ESC [ numeral m; and two codes render alike only if they are
    the same code. *)
Theorem named_code_round_trip (k k' : SGRCode) :
  stoi (str (sgr_of_code k)) = Some (SGRCode_value k)
  /\ toString (sgr_of_code k) = ESC ++ "[" ++ to_string (SGRCode_value k) ++ "m"
  /\ (toString (sgr_of_code k) = toString (sgr_of_code k') <-> k = k').
Proof.
  split_and!.
  - apply stoi_to_string.
  - unfold toString, sgr_of_code. cbn [str]. unfold escape, terminator, ESC.
    now rewrite append_assoc.
  - split; [| now intros ->].
    intros E. apply toString_inj in E. injection E as E.
    now apply SGRCode_value_inj, to_string_inj.
Qed.

(** X2: [toString] wraps the payload between ESC [ and m, three characters
    in all, and is injective: tokens render alike only if they are equal. *)
Theorem toString_injective (a b : sgr) :
  (toString a = toString b <-> a = b)
  /\ toString a = ESC ++ "[" ++ str a ++ "m"
  /\ String.length (toString a) = (String.length (str a) + 3)%nat.
Proof.
  split_and!.
  - split; [apply toString_inj | now intros ->].
  - unfold toString, escape, terminator, ESC. now rewrite append_assoc.
  - unfold toString, escape, terminator. rewrite !length_append. cbn. lia.
Qed.

(** X3: the thirty-two tokens of the indexed colours are pairwise
    different (a foreground token equals no background token, and each
    factory is injective), and none of them is the token of a rendition
    code. *)
Theorem indexed_colour_tokens_distinct (c c' : ANSIColor) (k : SGRCode) :
  (fg c = fg c' <-> c = c')
  /\ (bg c = bg c' <-> c = c')
  /\ fg c <> bg c'
  /\ fg c <> sgr_of_code k
  /\ bg c <> sgr_of_code k.
Proof.
  pose proof (ANSIColor_value_range c) as Hc.
  pose proof (ANSIColor_value_range c') as Hc'.
  pose proof (SGRCode_value_range k) as Hk.
  unfold fg, bg, color_ansi, sgr_of_code. split_and!.
  - split; [| now intros ->].
    intros [= E]. now apply ANSIColor_value_inj, to_string_inj.
  - split; [| now intros ->].
    intros [= E]. apply to_string_inj in E.
    apply ANSIColor_value_inj. lia.
  - intros [= E]. apply to_string_inj in E. lia.
  - intros [= E]. apply to_string_inj in E. lia.
  - intros [= E]. apply to_string_inj in E. lia.
Qed.

(** The numeral of a colour component is a non-empty string of digits. *)
Lemma component_numerals_check :
  forallb (fun n => Api.all_digits (to_string (Z.of_nat n))
                    && negb (String.eqb (to_string (Z.of_nat n)) ""))
    (seq 0 256) = true.
Proof. vm_compute. reflexivity. Qed.

Lemma component_numeral (r : Z) :
  0 <= r <= 255 ->
  Api.all_digits (to_string r) = true /\ to_string r <> "".
Proof.
  intros Hr.
  pose proof (proj1 (forallb_forall _ _) component_numerals_check
                (Z.to_nat r)) as H.
  cbv beta in H. rewrite Z2Nat.id in H by lia.
  assert (Hin : In (Z.to_nat r) (seq 0 256)) by (apply in_seq; lia).
  apply H in Hin. apply andb_true_iff in Hin as [Hd Hn].
  split; [exact Hd |].
  intros E. rewrite E in Hn. discriminate Hn.
Qed.

(** A group of digits followed by a semicolon is read off a string in one
    way only. *)
Lemma digits_semicolon_unique (s1 s2 t1 t2 : string) :
  Api.all_digits s1 = true -> Api.all_digits s2 = true ->
  s1 ++ String ";" t1 = s2 ++ String ";" t2 ->
  s1 = s2 /\ t1 = t2.
Proof.
  revert s2. induction s1 as [|c s1 IH]; intros [|d s2] H1 H2 E.
  - now injection E as ->.
  - change (String ";" t1 = String d (s2 ++ String ";" t2)) in E.
    injection E as <- _. cbn in H2. discriminate H2.
  - change (String c (s1 ++ String ";" t1) = String ";" t2) in E.
    injection E as -> _. cbn in H1. discriminate H1.
  - change (String c (s1 ++ String ";" t1) = String d (s2 ++ String ";" t2)) in E.
    injection E as -> E.
    cbn [Api.all_digits] in H1, H2.
    apply andb_true_iff in H1 as [_ H1]. apply andb_true_iff in H2 as [_ H2].
    destruct (IH s2 H1 H2 E) as [-> ->]. now split.
Qed.

Lemma color_rgb_inr r g b f t :
  color_rgb r g b f = inr t ->
  (0 <= r <= 255 /\ 0 <= g <= 255 /\ 0 <= b <= 255)
  /\ str t = (if f then "38;2;" else "48;2;")
             ++ to_string r ++ String ";" (to_string g ++ String ";" (to_string b)).
Proof.
  unfold color_rgb.
  destruct (verifyColorComponent r && verifyColorComponent g
            && verifyColorComponent b) eqn:Hv; cbn [negb]; [| discriminate].
  intros [= <-].
  apply andb_true_iff in Hv as [Hv Hb]. apply andb_true_iff in Hv as [Hr Hg].
  apply verifyColorComponent_spec in Hr, Hg, Hb.
  split; [tauto |]. cbn [str]. rewrite !append_assoc. reflexivity.
Qed.

(** X4: a 24-bit token determines its components and its layer: when two
    calls of the 24-bit constructor succeed with the same token, they were
    given the same red, green and blue and the same foreground flag. *)
Theorem rgb_token_determines_components r g b f r' g' b' f' t :
  color_rgb r g b f = inr t ->
  color_rgb r' g' b' f' = inr t ->
  r = r' /\ g = g' /\ b = b' /\ f = f'.
Proof.
  intros H1 H2.
  apply color_rgb_inr in H1 as [(Hr & Hg & Hb) E1].
  apply color_rgb_inr in H2 as [(Hr' & Hg' & Hb') E2].
  rewrite E1 in E2. clear E1.
  assert (Hf : f = f').
  { destruct f, f'; try reflexivity; discriminate E2. }
  subst f'. apply append_cancel_l in E2.
  destruct (component_numeral r Hr) as [Dr _].
  destruct (component_numeral r' Hr') as [Dr' _].
  destruct (component_numeral g Hg) as [Dg _].
  destruct (component_numeral g' Hg') as [Dg' _].
  apply digits_semicolon_unique in E2 as [Er E2]; [| assumption ..].
  apply digits_semicolon_unique in E2 as [Eg Eb]; [| assumption ..].
  apply to_string_inj in Er, Eg, Eb. now subst.
Qed.

Lemma rgb_token_determines_components_witness :
  255 = 255 /\ 128 = 128 /\ 0 = 0 /\ true = true.
Proof.
  refine (rgb_token_determines_components 255 128 0 true 255 128 0 true
            (mk_sgr "38;2;255;128;0") _ _); reflexivity.
Defined.

End TokenFacts.

(** ** The payload is a list of parameters *)

Section PayloadShape.
Import Sgr Color Api.

Lemma parameters_from_digits (d rest : string) :
  all_digits d = true ->
  parameters_from false (d ++ rest) = parameters_from false rest.
Proof.
  induction d as [|c d IH]; intros Hd; [reflexivity |].
  cbn [all_digits] in Hd. apply andb_true_iff in Hd as [Hc Hd].
  change (String c d ++ rest) with (String c (d ++ rest)).
  cbn [parameters_from]. rewrite Hc. now apply IH.
Qed.

Lemma digits_parameters (d : string) :
  all_digits d = true -> d <> "" -> parameters d = true.
Proof.
  destruct d as [|c d]; intros Hd Hn; [congruence |].
  cbn [all_digits] in Hd. apply andb_true_iff in Hd as [Hc Hd].
  unfold parameters. cbn [parameters_from]. rewrite Hc.
  rewrite <- (append_nil_r d). now rewrite parameters_from_digits.
Qed.

Lemma parameters_join (s1 s2 : string) : forall fresh,
  parameters_from fresh s1 = true ->
  parameters s2 = true ->
  parameters_from fresh (s1 ++ String ";" s2) = true.
Proof.
  induction s1 as [|c s1 IH]; intros fresh H1 H2.
  - cbn in H1. destruct fresh; [discriminate |]. exact H2.
  - change (String c s1 ++ String ";" s2)
      with (String c (s1 ++ String ";" s2)).
    cbn [parameters_from] in *.
    destruct (is_digit c); [now apply IH |].
    destruct (is_semicolon c); [| discriminate].
    apply andb_true_iff in H1 as [Hf H1]. rewrite Hf. now apply IH.
Qed.

Lemma rgb_parameters r g b f t :
  color_rgb r g b f = inr t -> parameters (str t) = true.
Proof.
  intros H. apply color_rgb_inr in H as [(Hr & Hg & Hb) ->].
  destruct (component_numeral r Hr) as [Dr Nr].
  destruct (component_numeral g Hg) as [Dg Ng].
  destruct (component_numeral b Hb) as [Db Nb].
  assert (Hrest : parameters
                    (to_string r ++ String ";" (to_string g ++ String ";" (to_string b)))
                  = true).
  { apply parameters_join; [now apply digits_parameters |].
    apply parameters_join; now apply digits_parameters. }
  destruct f; exact Hrest.
Qed.

(** X5: every token a client can build from the rendition codes, the
    colour factories and [operator+] has a payload made of non-empty groups
    of digits separated by single semicolons: it is never empty and has no
    semicolon at either end. *)
Theorem client_tokens_have_parameter_lists (e : expr) (t : sgr) :
  eval e = inr t -> parameters (str t) = true.
Proof.
  revert t. induction e as [k | c | c | r g b | r g b | e1 IH1 e2 IH2];
    intros t He; cbn [eval] in He.
  - injection He as <-. destruct k; reflexivity.
  - injection He as <-. destruct c; reflexivity.
  - injection He as <-. destruct c; reflexivity.
  - eapply rgb_parameters. exact He.
  - eapply rgb_parameters. exact He.
  - destruct (eval e1) as [x | a]; [discriminate |].
    destruct (eval e2) as [x | b]; [discriminate |].
    injection He as <-. cbn [operator_plus str].
    rewrite append_assoc. apply parameters_join; [now apply IH1 |].
    now apply IH2.
Qed.

Lemma client_tokens_have_parameter_lists_witness :
  parameters "1;38;2;255;0;0;47" = true.
Proof.
  refine (client_tokens_have_parameter_lists
            (Plus (Plus (Code BOLD) (FgRGB 255 0 0)) (Bg WHITE))
            (mk_sgr "1;38;2;255;0;0;47") _).
  reflexivity.
Defined.

Example parameters_rejects :
  parameters "" = false /\ parameters ";1" = false
  /\ parameters "1;" = false /\ parameters "1;;4" = false
  /\ parameters "1m" = false.
Proof. repeat split. Qed.

End PayloadShape.

(** ** More on the session of [sgr_ostream_wrapper] *)

Section WrapperMore.
Import Sgr Wrapper Chain.
Implicit Types (w : world sgr_ostream_wrapper) (o : sgr_ostream_wrapper).

Lemma sputn_run {O} (w : world O) b sink t :
  bufs w !! b = Some sink ->
  sputn b t w = Some (tt, mk_world (<[b := sink ++ t]> (bufs w)) (objs w)).
Proof. intros Hb. unfold sputn. now rewrite Hb. Qed.

(** A [color] operand written through a live wrapper. *)
Lemma insert_color_run w this o result wrapper sink t :
  objs w !! this = Some o ->
  objs w !! result = None ->
  objs w !! wrapper = None ->
  result <> wrapper ->
  bufs w !! stream o = Some sink ->
  insert_color this result wrapper t w
  = Some (this, mk_world
                  (<[stream o := sink ++ toString t ++ toString reset]> (bufs w))
                  (objs w)).
Proof.
  intros Ho Hr Hl Hne Hb. unfold insert_color.
  unfold bind at 1, load at 1. rewrite Ho.
  erewrite bind_run by (apply wrapper_operator_shl_run; eassumption).
  erewrite bind_run by
    (eapply wrapper_dtor_armed;
     [cbn [objs]; apply lookup_insert_eq | reflexivity
      | cbn [bufs stream]; apply lookup_insert_eq]).
  unfold ret. cbn [objs bufs stream]. do 3 f_equal.
  - rewrite insert_insert_eq, append_assoc. reflexivity.
  - rewrite delete_insert_eq. now apply delete_id.
Qed.

(** A chain of operands of any static type leaves the wrapper it is
    applied to, and every other object, as they were. *)
Lemma insert_typed_chain_run inner_result inner_wrapper xs :
  forall w this o sink,
  objs w !! this = Some o ->
  objs w !! inner_result = None ->
  objs w !! inner_wrapper = None ->
  inner_result <> inner_wrapper ->
  bufs w !! stream o = Some sink ->
  insert_typed_chain this inner_result inner_wrapper xs w
  = Some (this,
          mk_world (<[stream o := sink ++ rendered_typed_all xs]> (bufs w))
            (objs w)).
Proof.
  induction xs as [|x xs IH]; intros w this o sink Ho Hr Hl Hne Hb.
  - cbn. unfold ret. destruct w as [m os]. cbn in *. do 3 f_equal.
    rewrite append_nil_r. symmetry. now apply insert_id.
  - cbn [insert_typed_chain rendered_typed_all].
    assert (Hx : insert_typed this inner_result inner_wrapper x w
                 = Some (this,
                         mk_world
                           (<[stream o := sink ++ rendered_typed x]> (bufs w))
                           (objs w))).
    { destruct x as [t | c | c]; cbn [insert_typed rendered_typed].
      - exact (wrapper_insert_run w this o sink t Ho Hb).
      - exact (wrapper_insert_sgr_run w this o sink c Ho Hb).
      - now apply insert_color_run. }
    erewrite bind_run by exact Hx.
    rewrite (IH _ this o (sink ++ rendered_typed x));
      [| exact Ho | exact Hr | exact Hl | exact Hne
       | cbn [bufs]; apply lookup_insert_eq].
    cbn [bufs objs]. now rewrite insert_insert_eq, append_assoc.
Qed.

(** Without [color] operands the typed chain is the chain of text and
    [sgr] operands. *)
Lemma insert_typed_chain_of_operand inner_result inner_wrapper ys :
  forall this w,
  insert_typed_chain this inner_result inner_wrapper (map of_operand ys) w
  = insert_chain this ys w.
Proof.
  induction ys as [|y ys IH]; intros this w; [reflexivity |].
  cbn [map insert_typed_chain insert_chain].
  assert (Hy : insert_typed this inner_result inner_wrapper (of_operand y)
               = insert_operand this y) by (destruct y; reflexivity).
  rewrite Hy. unfold bind.
  destruct (insert_operand this y w) as [[r w1]|]; [apply IH | reflexivity].
Qed.

(** X6: any statement [out << c << x1 << ... << xn;], whatever mix of
    text, tokens of type [sgr] (the reset token included) and objects of
    type [color] the operands are, appends to the sink the first token and
    then the operands in order, each [color] operand immediately followed
    by a reset sequence of its own, and at the end exactly one more reset
    sequence.  The other buffers and the objects that existed before are
    untouched and no wrapper outlives the statement.  Without [color]
    operands this is the chain of text and [sgr] operands, which writes
    the token, the operands and a single reset. *)
Theorem typed_chain_statement_resets
    w result wrapper inner_result inner_wrapper out sink c xs :
  objs w !! result = None ->
  objs w !! wrapper = None ->
  objs w !! inner_result = None ->
  objs w !! inner_wrapper = None ->
  result <> wrapper ->
  inner_result <> inner_wrapper ->
  result <> inner_result ->
  result <> inner_wrapper ->
  bufs w !! out = Some sink ->
  stmt_typed_chain result wrapper inner_result inner_wrapper out c xs w
  = Some (tt, mk_world
                (<[out := sink ++ toString c ++ rendered_typed_all xs
                            ++ toString reset]> (bufs w))
                (objs w))
  /\ (forall ys : list operand,
        stmt_typed_chain result wrapper inner_result inner_wrapper out c
          (map of_operand ys) w
        = stmt_chain result wrapper out c ys w
        /\ rendered_typed_all (map of_operand ys) = rendered_all ys).
Proof.
  intros Hr Hl Hir Hil Hne Hine Hri Hrl Hb. split_and!.
  - unfold stmt_typed_chain.
    erewrite bind_run by (apply wrapper_operator_shl_run; eassumption).
    erewrite bind_run by
      (eapply (insert_typed_chain_run inner_result inner_wrapper xs _ result
                 (mk_wrapper out true));
       cbn [objs bufs stream];
       [apply lookup_insert_eq
       | now rewrite lookup_insert_ne
       | now rewrite lookup_insert_ne
       | exact Hine
       | apply lookup_insert_eq]).
    erewrite wrapper_dtor_armed;
      [| cbn [objs]; apply lookup_insert_eq | reflexivity
       | cbn [bufs stream]; apply lookup_insert_eq].
    cbn [objs bufs stream]. do 3 f_equal.
    + rewrite !insert_insert_eq, !append_assoc. reflexivity.
    + rewrite delete_insert_eq. now apply delete_id.
  - intros ys. split.
    + unfold stmt_typed_chain, stmt_chain, bind.
      destruct (operator_shl result wrapper out c w) as [[tmp w1]|];
        [| reflexivity].
      now rewrite insert_typed_chain_of_operand.
    + induction ys as [|[t | c'] ys IH]; [reflexivity | |];
        cbn [map of_operand rendered_typed_all rendered_all rendered_typed
               rendered]; now rewrite IH.
Qed.

(** [os << bold << color::fg(color::RED) << "x" << reset << green_fg;] on
    an empty string stream. *)
Lemma typed_chain_statement_resets_witness :
  stmt_typed_chain 1%nat 2%nat 3%nat 4%nat 0%nat bold
    (OfColor (Color.fg Color.RED) :: OfText "x" :: OfSgr reset
     :: OfSgr Color.green_fg :: nil)
    (mk_world {[ 0%nat := "" ]} ∅)
  = Some (tt, mk_world
                {[ 0%nat := ESC ++ "[1m" ++ ESC ++ "[31m" ++ ESC ++ "[0mx"
                              ++ ESC ++ "[0m" ++ ESC ++ "[32m" ++ ESC ++ "[0m" ]}
                ∅).
Proof.
  refine (proj1 (typed_chain_statement_resets
                   (mk_world {[ 0%nat := "" ]} ∅) 1%nat 2%nat 3%nat 4%nat
                   0%nat "" bold
                   (OfColor (Color.fg Color.RED) :: OfText "x" :: OfSgr reset
                    :: OfSgr Color.green_fg :: nil) _ _ _ _ _ _ _ _ _));
    vm_compute; congruence.
Defined.

(** X7: an operand of static type [color] in the middle of a chain is not
    written by the specialization for [sgr]: the generic inserter opens an
    inner session on the same buffer, which ends at once.  The sink gets
    the colour's escape string immediately followed by a reset sequence;
    the outer wrapper keeps its flag and is the result. *)
Theorem color_operand_is_reset_at_once w this o result wrapper sink t :
  objs w !! this = Some o ->
  objs w !! result = None ->
  objs w !! wrapper = None ->
  result <> wrapper ->
  bufs w !! stream o = Some sink ->
  insert_color this result wrapper t w
  = Some (this, mk_world
                  (<[stream o := sink ++ toString t ++ toString reset]> (bufs w))
                  (objs w)).
Proof.
  intros Ho Hr Hl Hne Hb. unfold insert_color.
  unfold bind at 1, load at 1. rewrite Ho.
  erewrite bind_run by (apply wrapper_operator_shl_run; eassumption).
  erewrite bind_run by
    (eapply wrapper_dtor_armed;
     [cbn [objs]; apply lookup_insert_eq | reflexivity
      | cbn [bufs stream]; apply lookup_insert_eq]).
  unfold ret. cbn [objs bufs stream]. do 3 f_equal.
  - rewrite insert_insert_eq, append_assoc. reflexivity.
  - rewrite delete_insert_eq. now apply delete_id.
Qed.

Lemma color_operand_is_reset_at_once_witness :
  insert_color 1%nat 2%nat 3%nat (Color.fg Color.RED)
    (mk_world {[ 0%nat := ESC ++ "[1m" ]}
       {[ 1%nat := mk_wrapper 0%nat true ]})
  = Some (1%nat,
          mk_world {[ 0%nat := ESC ++ "[1m" ++ ESC ++ "[31m" ++ ESC ++ "[0m" ]}
            {[ 1%nat := mk_wrapper 0%nat true ]}).
Proof.
  refine (color_operand_is_reset_at_once
            (mk_world {[ 0%nat := ESC ++ "[1m" ]}
               {[ 1%nat := mk_wrapper 0%nat true ]})
            1%nat (mk_wrapper 0%nat true) 2%nat 3%nat (ESC ++ "[1m")
            (Color.fg Color.RED) _ _ _ _ _);
    vm_compute; congruence.
Defined.

(** X8: a well-scoped program run on wrappers none of which has
    [shouldReset] set (moved-from or already killed) writes what the client
    inserts and nothing else: no destructor adds a reset sequence. *)
Theorem unarmed_wrappers_never_reset p w b sink :
  well_scoped (dom (objs w)) p = true ->
  all_on w b ->
  unarmed w ->
  bufs w !! b = Some sink ->
  exec p w = Some (tt, mk_world (<[b := sink ++ output p]> (bufs w)) ∅).
Proof.
  revert w sink. induction p as [|i p IH]; intros w sink Hws Hall Hun Hb.
  - cbn in Hws. apply bool_decide_eq_true, dom_empty_inv_L in Hws.
    destruct w as [m os]. cbn in *. subst os. unfold ret.
    do 3 f_equal. now apply insert_same_buffer.
  - cbn [well_scoped] in Hws. apply andb_true_iff in Hws as [Hin Hws].
    destruct (step_runs i w b sink Hin Hall Hb)
      as (w1 & Hstep & Hdom & Hall1 & Hun1 & _).
    destruct (Hun1 Hun) as [Hun1' Hb1].
    cbn [exec]. erewrite bind_run by exact Hstep.
    rewrite (IH w1 (sink ++ written i));
      [| now rewrite Hdom | assumption | assumption
       | rewrite Hb1; apply lookup_insert_eq].
    rewrite Hb1, insert_insert_eq. cbn [output].
    now rewrite append_assoc.
Qed.

Lemma unarmed_wrappers_never_reset_witness :
  exec (Put 1 "a" :: Move 2 1 :: PutSgr 2 bold :: Destroy 1 :: Destroy 2 :: nil)
    (mk_world {[ 0%nat := "" ]} {[ 1%nat := mk_wrapper 0%nat false ]})
  = Some (tt, mk_world {[ 0%nat := "a" ++ ESC ++ "[1m" ]} ∅).
Proof.
  refine (unarmed_wrappers_never_reset
            (Put 1 "a" :: Move 2 1 :: PutSgr 2 bold :: Destroy 1
             :: Destroy 2 :: nil)
            (mk_world {[ 0%nat := "" ]} {[ 1%nat := mk_wrapper 0%nat false ]})
            0%nat "" _ _ _ _).
  - vm_compute. reflexivity.
  - intros a o Ho. cbn [objs] in Ho.
    apply lookup_singleton_Some in Ho as [_ <-]. reflexivity.
  - intros a o Ho. cbn [objs] in Ho.
    apply lookup_singleton_Some in Ho as [_ <-]. reflexivity.
  - reflexivity.
Defined.

(** X9: statements compose.  Two styled statements on one sink, with plain
    text written to the sink between them, give the first statement's
    bytes closed by its reset, then the plain text, then the second
    statement's bytes closed by its own reset; the second statement may
    reuse the storage of the first. *)
Theorem statements_compose w result wrapper out sink a xs plain b ys :
  objs w !! result = None ->
  objs w !! wrapper = None ->
  result <> wrapper ->
  bufs w !! out = Some sink ->
  (stmt_chain result wrapper out a xs ;;
   sputn out plain ;;
   stmt_chain result wrapper out b ys) w
  = Some (tt, mk_world
                (<[out := sink ++ (toString a ++ rendered_all xs ++ toString reset)
                            ++ plain
                            ++ (toString b ++ rendered_all ys ++ toString reset)]>
                   (bufs w))
                (objs w)).
Proof.
  intros Hr Hl Hne Hb.
  erewrite bind_run by (apply stmt_chain_run; eassumption).
  erewrite bind_run by
    (apply sputn_run; cbn [bufs]; apply lookup_insert_eq).
  rewrite (stmt_chain_run _ result wrapper out
             ((sink ++ toString a ++ rendered_all xs ++ toString reset) ++ plain));
    [| assumption | assumption | assumption | cbn [bufs]; apply lookup_insert_eq].
  cbn [bufs objs]. do 3 f_equal.
  rewrite !insert_insert_eq, !append_assoc. reflexivity.
Qed.

Lemma statements_compose_witness :
  (stmt_chain 1%nat 2%nat 0%nat Color.red_fg (Text "red" :: nil) ;;
   sputn 0%nat "plain" ;;
   stmt_chain 1%nat 2%nat 0%nat bold (Text "bold" :: nil))
    (mk_world {[ 0%nat := "" ]} ∅)
  = Some (tt, mk_world
                {[ 0%nat := ESC ++ "[31mred" ++ ESC ++ "[0mplain"
                              ++ ESC ++ "[1mbold" ++ ESC ++ "[0m" ]} ∅).
Proof.
  refine (statements_compose (mk_world {[ 0%nat := "" ]} ∅)
            1%nat 2%nat 0%nat "" Color.red_fg (Text "red" :: nil) "plain"
            bold (Text "bold" :: nil) _ _ _ _);
    vm_compute; congruence.
Defined.

End WrapperMore.

(** ** More on the session of [sgr_ostream] *)

Section OstreamMore.
Import Sgr Ostream.
Implicit Types (w : world sgr_ostream) (o : sgr_ostream).

Lemma bind_assoc {O A B C} (c : M O A) (k : A -> M O B) (g : B -> M O C)
    (x : world O) :
  bind (bind c k) g x = bind c (fun a => bind (k a) g) x.
Proof. unfold bind. destruct (c x) as [[a x1]|]; reflexivity. Qed.

(** X10: the copy constructor of [sgr_ostream] does not copy [dead].  A
    copy, even of a stream that is already dead, is alive: its destructor
    writes a reset sequence of its own, and the stream copied from is left
    as it was. *)
Theorem copy_owes_its_own_reset w this other o sink :
  objs w !! other = Some o ->
  objs w !! this = None ->
  bufs w !! rdbuf o = Some sink ->
  (ctor_copy this other ;; dtor this) w
  = Some (tt, mk_world (<[rdbuf o := sink ++ toString reset]> (bufs w))
                (objs w)).
Proof.
  intros Ho Hf Hb.
  assert (Hc : ctor_copy this other w
               = Some (tt, mk_world (bufs w)
                             (<[this := mk_ostream (rdbuf o) false]> (objs w)))).
  { unfold ctor_copy, bind, load, construct. now rewrite Ho, Hf. }
  erewrite bind_run by exact Hc.
  erewrite (ostream_dtor_alive _ this (mk_ostream (rdbuf o) false));
    [| cbn [objs]; apply lookup_insert_eq | reflexivity | exact Hb].
  cbn [objs bufs]. do 3 f_equal.
  rewrite delete_insert_eq. now apply delete_id.
Qed.

Lemma copy_owes_its_own_reset_witness :
  (ctor_copy 2%nat 1%nat ;; dtor 2%nat)
    (mk_world {[ 0%nat := "x" ++ ESC ++ "[0m" ]}
       {[ 1%nat := mk_ostream 0%nat true ]})
  = Some (tt, mk_world {[ 0%nat := "x" ++ ESC ++ "[0m" ++ ESC ++ "[0m" ]}
                {[ 1%nat := mk_ostream 0%nat true ]}).
Proof.
  refine (copy_owes_its_own_reset
            (mk_world {[ 0%nat := "x" ++ ESC ++ "[0m" ]}
               {[ 1%nat := mk_ostream 0%nat true ]})
            2%nat 1%nat (mk_ostream 0%nat true) ("x" ++ ESC ++ "[0m") _ _ _);
    reflexivity.
Defined.

(** The rest of a chain of tokens applied to a live stream, followed by the
    destruction of that stream. *)
Lemma chain_from_then_dtor out xs : forall w this sink,
  objs w !! this = Some (mk_ostream out false) ->
  ~ In this (map fst xs) ->
  List.NoDup (map fst xs) ->
  (forall r, In r (map fst xs) -> objs w !! r = None) ->
  bufs w !! out = Some sink ->
  (chain_from this xs ;; dtor this) w
  = Some (tt, mk_world
                (<[out := sink ++ rendered_sgrs xs ++ toString reset]> (bufs w))
                (delete this (objs w))).
Proof.
  induction xs as [|[r c] xs IH]; intros w this sink Ho Hni Hnd Hfree Hb.
  - cbn [chain_from rendered_sgrs].
    erewrite bind_run by reflexivity.
    now rewrite (ostream_dtor_alive w this (mk_ostream out false) sink).
  - cbn [chain_from rendered_sgrs]. cbn [map fst] in Hni, Hnd, Hfree.
    apply NoDup_cons_iff in Hnd as [Hrn Hnd].
    assert (Hr : objs w !! r = None) by (apply Hfree; now left).
    assert (Hne : this <> r) by (intros ->; apply Hni; now left).
    rewrite bind_assoc.
    erewrite bind_run by
      (apply (ostream_insert_sgr_run w r this (mk_ostream out false) sink c);
       [exact Ho | reflexivity | exact Hr | exact Hb]).
    cbn [rdbuf].
    erewrite bind_run.
    2:{ apply (IH _ r (sink ++ toString reset ++ toString c)).
        - cbn [objs]. apply lookup_insert_eq.
        - exact Hrn.
        - exact Hnd.
        - intros r' Hr'. cbn [objs].
          assert (r' <> r) by (intros ->; contradiction).
          assert (r' <> this) by (intros ->; apply Hni; now right).
          rewrite !lookup_insert_ne by done. apply Hfree. now right.
        - cbn [bufs]. apply lookup_insert_eq. }
    erewrite (ostream_dtor_dead _ this (mk_ostream out true));
      [| cbn [objs]; rewrite lookup_delete_ne, lookup_insert_ne,
           lookup_insert_eq by done; reflexivity
       | reflexivity].
    cbn [objs bufs]. do 3 f_equal.
    + rewrite insert_insert_eq, !append_assoc. reflexivity.
    + map_solve.
Qed.

(** X11: in a chain of tokens [out << a << c1 << ... << cn;] through
    [sgr_ostream] every token is followed by exactly one reset sequence:
    each further token first resets the stream it is inserted into, and
    the last temporary resets when it dies.  Nothing is left alive. *)
Theorem every_token_is_followed_by_reset w t1 out a xs sink :
  List.NoDup (t1 :: map fst xs) ->
  (forall r, In r (t1 :: map fst xs) -> objs w !! r = None) ->
  bufs w !! out = Some sink ->
  stmt_sgrs t1 out a xs w
  = Some (tt, mk_world
                (<[out := sink ++ toString a ++ rendered_sgrs xs ++ toString reset]>
                   (bufs w))
                (objs w)).
Proof.
  intros Hnd Hfree Hb. apply NoDup_cons_iff in Hnd as [Hni Hnd].
  assert (H1 : objs w !! t1 = None) by (apply Hfree; now left).
  unfold stmt_sgrs, operator_shl.
  rewrite (bind_run (ctor t1 out a ;; ret t1) _ w t1
             (mk_world (<[out := sink ++ toString a]> (bufs w))
                (<[t1 := mk_ostream out false]> (objs w))))
    by (erewrite bind_run by (apply ostream_ctor_run; eassumption);
        reflexivity).
  rewrite (chain_from_then_dtor out xs _ t1 (sink ++ toString a)).
  - cbn [objs bufs]. do 3 f_equal.
    + rewrite insert_insert_eq, !append_assoc. reflexivity.
    + rewrite delete_insert_eq. now apply delete_id.
  - cbn [objs]. apply lookup_insert_eq.
  - exact Hni.
  - exact Hnd.
  - intros r Hr. cbn [objs].
    assert (r <> t1) by (intros ->; contradiction).
    rewrite lookup_insert_ne by done. apply Hfree. now right.
  - cbn [bufs]. apply lookup_insert_eq.
Qed.

Lemma every_token_is_followed_by_reset_witness :
  stmt_sgrs 1%nat 0%nat bold
    ((2%nat, underline) :: (3%nat, Color.red_fg) :: nil)
    (mk_world {[ 0%nat := "" ]} ∅)
  = Some (tt, mk_world
                {[ 0%nat := ESC ++ "[1m" ++ ESC ++ "[0m" ++ ESC ++ "[4m"
                              ++ ESC ++ "[0m" ++ ESC ++ "[31m" ++ ESC ++ "[0m" ]}
                ∅).
Proof.
  refine (every_token_is_followed_by_reset (mk_world {[ 0%nat := "" ]} ∅)
            1%nat 0%nat bold
            ((2%nat, underline) :: (3%nat, Color.red_fg) :: nil) "" _ _ _).
  - repeat constructor; cbn; intuition lia.
  - intros r _. reflexivity.
  - reflexivity.
Defined.

Lemma ostream_insert_texts_run ts : forall w this o sink,
  objs w !! this = Some o ->
  bufs w !! rdbuf o = Some sink ->
  insert_texts this ts w
  = Some (this,
          mk_world
            (<[rdbuf o := sink ++ Wrapper.rendered_all (map Wrapper.Text ts)]>
               (bufs w))
            (objs w)).
Proof.
  induction ts as [|t ts IH]; intros w this o sink Ho Hb.
  - cbn. unfold ret. destruct w as [m os]. cbn in *. do 3 f_equal.
    rewrite append_nil_r. symmetry. now apply insert_id.
  - cbn [insert_texts map Wrapper.rendered_all Wrapper.rendered].
    erewrite bind_run by exact (ostream_insert_run w this o sink t Ho Hb).
    rewrite (IH _ this o (sink ++ t));
      [| exact Ho | cbn [bufs]; apply lookup_insert_eq].
    cbn [bufs objs]. now rewrite insert_insert_eq, append_assoc.
Qed.

(** X12: on a statement with a single token followed by text only,
    [out << c << t1 << ... << tn;], the two sessions write the same bytes:
    the token, the text, one reset sequence. *)
Theorem sessions_agree_on_one_token
    (wo : world sgr_ostream) (ww : world Wrapper.sgr_ostream_wrapper)
    t1 t2 out sink c ts :
  objs wo !! t1 = None ->
  objs ww !! t1 = None -> objs ww !! t2 = None -> t1 <> t2 ->
  bufs wo !! out = Some sink ->
  bufs ww !! out = Some sink ->
  exists s,
    s = sink ++ toString c ++ Wrapper.rendered_all (map Wrapper.Text ts)
             ++ toString reset
    /\ stmt_sgr_texts t1 out c ts wo
       = Some (tt, mk_world (<[out := s]> (bufs wo)) (objs wo))
    /\ Wrapper.stmt_chain t1 t2 out c (map Wrapper.Text ts) ww
       = Some (tt, mk_world (<[out := s]> (bufs ww)) (objs ww)).
Proof.
  intros Ho1 Hw1 Hw2 Hne Hbo Hbw. eexists. split_and!.
  - reflexivity.
  - unfold stmt_sgr_texts, operator_shl.
    rewrite (bind_run (ctor t1 out c ;; ret t1) _ wo t1
               (mk_world (<[out := sink ++ toString c]> (bufs wo))
                  (<[t1 := mk_ostream out false]> (objs wo))))
      by (erewrite bind_run by (apply ostream_ctor_run; eassumption);
          reflexivity).
    erewrite bind_run by
      (eapply (ostream_insert_texts_run ts _ t1 (mk_ostream out false));
       cbn [objs bufs rdbuf]; apply lookup_insert_eq).
    erewrite (ostream_dtor_alive _ t1 (mk_ostream out false));
      [| cbn [objs]; apply lookup_insert_eq | reflexivity
       | cbn [bufs rdbuf]; apply lookup_insert_eq].
    cbn [objs bufs rdbuf]. do 3 f_equal.
    + rewrite !insert_insert_eq, !append_assoc. reflexivity.
    + rewrite delete_insert_eq. now apply delete_id.
  - apply stmt_chain_run; assumption.
Qed.

Lemma sessions_agree_on_one_token_witness :
  exists s,
    s = "" ++ toString bold
           ++ Wrapper.rendered_all (map Wrapper.Text ("Bold " :: "string" :: nil))
           ++ toString reset
    /\ stmt_sgr_texts 1%nat 0%nat bold ("Bold " :: "string" :: nil)
         (mk_world {[ 0%nat := "" ]} ∅)
       = Some (tt, mk_world (<[0%nat := s]> {[ 0%nat := "" ]}) ∅)
    /\ Wrapper.stmt_chain 1%nat 2%nat 0%nat bold
         (map Wrapper.Text ("Bold " :: "string" :: nil))
         (mk_world {[ 0%nat := "" ]} ∅)
       = Some (tt, mk_world (<[0%nat := s]> {[ 0%nat := "" ]}) ∅).
Proof.
  refine (sessions_agree_on_one_token
            (mk_world {[ 0%nat := "" ]} ∅) (mk_world {[ 0%nat := "" ]} ∅)
            1%nat 2%nat 0%nat "" bold ("Bold " :: "string" :: nil)
            _ _ _ _ _ _);
    vm_compute; congruence.
Defined.

End OstreamMore.

(** ** The older token classes *)

Section OlderRevisions.

Lemma chained_operator_shl_run (w : world Empty_set) out sink c :
  bufs w !! out = Some sink ->
  Chained.operator_shl out c w
  = Some (out, mk_world
                 (<[out := sink ++ Chained.escape ++ Chained.str c ++ "m"]>
                    (bufs w))
                 (objs w)).
Proof.
  intros Hb. unfold Chained.operator_shl.
  erewrite bind_run by (apply sputn_run; exact Hb).
  erewrite bind_run by (apply sputn_run; cbn [bufs]; apply lookup_insert_eq).
  erewrite bind_run by (apply sputn_run; cbn [bufs]; apply lookup_insert_eq).
  unfold ret. cbn [bufs objs]. do 3 f_equal.
  rewrite !insert_insert_eq, !append_assoc. reflexivity.
Qed.

Lemma chained_operator_shl_none (w : world Empty_set) out c :
  bufs w !! out = None -> Chained.operator_shl out c w = None.
Proof.
  intros Hb. unfold Chained.operator_shl, bind, sputn. now rewrite Hb.
Qed.

(** X13: in the revision whose [operator+] joins with ["m"] and the
    escape prefix, inserting [a + b] into a stream does exactly what
    inserting [a] and then [b] does, on every world (a missing buffer makes
    both undefined); [+] is associative there too. *)
Theorem chained_plus_is_sequence (a b c : Chained.SGR) (out : nat)
    (w : world Empty_set) :
  Chained.operator_shl out (Chained.operator_plus a b) w
  = (o <- Chained.operator_shl out a ;; Chained.operator_shl o b) w
  /\ Chained.operator_plus (Chained.operator_plus a b) c
     = Chained.operator_plus a (Chained.operator_plus b c).
Proof.
  split.
  - destruct (bufs w !! out) as [sink|] eqn:Hb.
    + erewrite (bind_run (Chained.operator_shl out a))
        by (apply chained_operator_shl_run; exact Hb).
      rewrite (chained_operator_shl_run w out sink) by exact Hb.
      rewrite (chained_operator_shl_run _ out
                 (sink ++ Chained.escape ++ Chained.str a ++ "m"))
        by (cbn [bufs]; apply lookup_insert_eq).
      cbn [bufs objs Chained.operator_plus Chained.str]. do 3 f_equal.
      rewrite insert_insert_eq, !append_assoc. reflexivity.
    + rewrite chained_operator_shl_none by exact Hb.
      unfold bind. now rewrite chained_operator_shl_none by exact Hb.
  - unfold Chained.operator_plus. cbn [Chained.str]. f_equal.
    now rewrite !append_assoc.
Qed.

(** X14: the oldest classes [FGColor] and [BGColor] store the very wire
    string that [toString] gives for the tokens of [color::fg] and
    [color::bg], for the indexed colours and for 24-bit colours; and their
    24-bit constructors throw for exactly the components for which [color]
    throws (a [std::runtime_error], where [color] throws
    [invalid_color_component]). *)
Theorem colour_wire_strings_agree (code : Color.ANSIColor) (r g b : Z) :
  Legacy.str (Legacy.FGColor code) = Sgr.toString (Color.fg code)
  /\ Legacy.str (Legacy.BGColor code) = Sgr.toString (Color.bg code)
  /\ match Legacy.FGColor_rgb r g b, Color.fg_rgb r g b with
     | inr s, inr t => Legacy.str s = Sgr.toString t
     | inl e, inl _ => e = Legacy.runtime_error "Invalid color component"
     | _, _ => False
     end
  /\ match Legacy.BGColor_rgb r g b, Color.bg_rgb r g b with
     | inr s, inr t => Legacy.str s = Sgr.toString t
     | inl e, inl _ => e = Legacy.runtime_error "Invalid color component"
     | _, _ => False
     end.
Proof.
  split_and!; try reflexivity.
  - unfold Legacy.FGColor_rgb, Color.fg_rgb, Color.color_rgb.
    destruct (Color.verifyColorComponent r && Color.verifyColorComponent g
              && Color.verifyColorComponent b); reflexivity.
  - unfold Legacy.BGColor_rgb, Color.bg_rgb, Color.color_rgb.
    destruct (Color.verifyColorComponent r && Color.verifyColorComponent g
              && Color.verifyColorComponent b); reflexivity.
Qed.

End OlderRevisions.
